(** * Insight-Engine: chunk splitter, ingestion and search

    A shallow embedding of [backend/ingest.py], [backend/search.py] and
    [backend/answer.py].

    - Python [int] is [Z]; a Python [str] is the list of its Unicode code
      points; a [dict] is a [gmap].
    - [while] loops that may fail to exit are run with a fuel counter; the
      answer [None] means "still looping when the fuel ran out" and nothing
      else.
    - The Chroma vector store, the file system and [uuid.uuid4] are external
      collaborators; they are modelled by a small world state that [main]
      and [search] thread through their calls. *)

From stdpp Require Import gmap strings list.
From Stdlib Require Import ZArith Lia.

(** ** Python strings *)

Module Text.

(** A Python [str]: a sequence of Unicode code points. *)
Definition str : Type := list N.

(** Code points of an ASCII literal. *)
Fixpoint of_string (s : string) : str :=
  match s with
  | EmptyString => []
  | String c s' => Ascii.N_of_ascii c :: of_string s'
  end.

(** [str.isspace] on one character, the table of [_PyUnicode_IsWhitespace]. *)
Definition isspace (c : N) : bool :=
  ((9 <=? c) && (c <=? 13)             (* \t \n \v \f \r *)
   || (28 <=? c) && (c <=? 32)         (* FS GS RS US and space *)
   || (c =? 133) || (c =? 160)         (* NEL, no-break space *)
   || (c =? 5760)                      (* Ogham space mark *)
   || (8192 <=? c) && (c <=? 8202)     (* en quad .. hair space *)
   || (c =? 8232) || (c =? 8233)       (* line and paragraph separator *)
   || (c =? 8239) || (c =? 8287) || (c =? 12288))%N.

Fixpoint drop_while {A} (p : A → bool) (l : list A) : list A :=
  match l with
  | [] => []
  | x :: l' => if p x then drop_while p l' else l
  end.

Definition lstrip (s : str) : str := drop_while isspace s.
Definition rstrip (s : str) : str := rev (drop_while isspace (rev s)).

(** [s.strip()]: leading and trailing whitespace removed. *)
Definition strip (s : str) : str := rstrip (lstrip s).

(** [len(s)] as a Python int. *)
Definition len {A} (s : list A) : Z := Z.of_nat (length s).

(** Index adjustment of a slice bound ([PySlice_AdjustIndices], step 1): a
    negative bound counts from the end, and the result is clamped to
    [0 .. n]. *)
Definition adjust_index (n i : Z) : Z :=
  if (i <? 0)%Z then Z.max 0 (i + n) else Z.min i n.

(** [s[i:j]]. *)
Definition py_slice {A} (s : list A) (i j : Z) : list A :=
  let lo := adjust_index (len s) i in
  let hi := adjust_index (len s) j in
  take (Z.to_nat (hi - lo)) (drop (Z.to_nat lo) s).

End Text.

(** ** ingest.py: the chunk splitter *)

Module Splitter.
Import Text.
Local Open Scope Z_scope.

(** The [while start < n] loop of [split_into_chunks]; [start] and [chunks]
    are the loop's variables.  One unit of fuel pays for one evaluation of
    the loop condition. *)
Fixpoint chunk_loop (fuel : nat) (text : str) (n max_chars overlap : Z)
    (start : Z) (chunks : list str) : option (list str) :=
  match fuel with
  | O => None
  | S fuel' =>
      if start <? n then
        let end_ := Z.min (start + max_chars) n in
        let chunk := py_slice text start end_ in
        let chunks := chunks ++ [chunk] in
        if end_ =? n then Some chunks
        else chunk_loop fuel' text n max_chars overlap
               (Z.max 0 (end_ - overlap)) chunks
      else Some chunks
  end.

(** [split_into_chunks(text, max_chars, overlap)]. *)
Definition split_into_chunks (fuel : nat) (text : str)
    (max_chars overlap : Z) : option (list str) :=
  let text := strip text in
  match text with
  | [] => Some []
  | _ => chunk_loop fuel text (len text) max_chars overlap 0 []
  end.

(** Ghost instrumentation: the same loop recording the window
    [(start, end)] of every chunk instead of its text. *)
Fixpoint window_loop (fuel : nat) (n max_chars overlap : Z)
    (start : Z) (windows : list (Z * Z)) : option (list (Z * Z)) :=
  match fuel with
  | O => None
  | S fuel' =>
      if start <? n then
        let end_ := Z.min (start + max_chars) n in
        let windows := windows ++ [(start, end_)] in
        if end_ =? n then Some windows
        else window_loop fuel' n max_chars overlap
               (Z.max 0 (end_ - overlap)) windows
      else Some windows
  end.

Definition window_text (text : str) (w : Z * Z) : str :=
  py_slice text w.1 w.2.

(** The windows the loop lays over a text of length [n] from cursor [start]
    on, when it advances by [max_chars - overlap] each turn: full windows
    of [max_chars] characters, then one window that reaches [n]. *)
Inductive tiling (n max_chars overlap : Z) : Z → list (Z * Z) → Prop :=
| tiling_last start :
    0 ≤ start < n → n ≤ start + max_chars →
    tiling n max_chars overlap start [(start, n)]
| tiling_next start windows :
    0 ≤ start → start + max_chars < n →
    tiling n max_chars overlap (start + max_chars - overlap) windows →
    tiling n max_chars overlap start ((start, start + max_chars) :: windows).

End Splitter.

(** ** Exceptions and the world outside the program *)

Module World.
Import Text.

(** The exceptions the modelled code can meet.  [ValueError] is what the
    store raises when it refuses a batch.  [Nontermination] is not a Python
    exception: it marks a [while] loop that was still running when its fuel
    ran out. *)
Inductive exn :=
| CollectionNotFound (name : string)
| CollectionExists (name : string)
| LoaderError (path : string)
| IndexError
| ValueError
| Nontermination.

Inductive result (A : Type) :=
| Ok (a : A)
| Raise (e : exn).
Arguments Ok {A} a.
Arguments Raise {A} e.

(** A metadata value stored with a chunk. *)
Inductive value :=
| VStr (s : string)
| VInt (z : Z).

(** One stored chunk of the vector store: id, document text, metadata. *)
Record record := {
  rec_id : string;
  rec_document : str;
  rec_metadata : gmap string value;
}.

(** A file met by [os.walk]: its path, [Path(filename).suffix.lower()], and
    what the loader registered for that suffix returns when applied to it
    (or the exception it raises). *)
Record file := {
  f_path : string;
  f_suffix : string;
  f_read : option str;
}.

(** What the program prints. *)
Inductive message :=
| MsgNoFolder
| MsgNoFiles
| MsgFound (files : Z)
| MsgAdding (chunks : Z)
| MsgDone.

(** A call made to the vector store client (a log kept beside the store). *)
Inductive store_call :=
| DeleteCollection (name : string)
| CreateCollection (name : string)
| Add (name : string) (ids : list string) (documents : list str)
      (metadatas : list (gmap string value)).

Record world := {
  data_dir_exists : bool;
  walk : list file;
  store : gmap string (list record);
  calls : list store_call;
  stdout : list message;
  uuid_source : nat → string;
  uuid_drawn : nat;
}.

(** Programs that read and change the world and may raise.  What a program
    did before it raised stays done. *)
Definition M (A : Type) : Type := world → result A * world.

#[export] Instance M_ret : MRet M := λ A a w, (Ok a, w).
#[export] Instance M_bind : MBind M := λ A B f m w,
  match m w with
  | (Ok a, w') => f a w'
  | (Raise e, w') => (Raise e, w')
  end.

Definition raise {A} (e : exn) : M A := λ w, (Raise e, w).

(** [try: m except Exception: handler]. *)
Definition try_except {A} (m : M A) (handler : exn → M A) : M A := λ w,
  match m w with
  | (Ok a, w') => (Ok a, w')
  | (Raise e, w') => handler e w'
  end.

Definition get_world : M world := λ w, (Ok w, w).

Definition set_store (st : gmap string (list record)) (w : world) : world :=
  {| data_dir_exists := data_dir_exists w; walk := walk w; store := st;
     calls := calls w; stdout := stdout w;
     uuid_source := uuid_source w; uuid_drawn := uuid_drawn w |}.

Definition log_call (c : store_call) (w : world) : world :=
  {| data_dir_exists := data_dir_exists w; walk := walk w; store := store w;
     calls := calls w ++ [c]; stdout := stdout w;
     uuid_source := uuid_source w; uuid_drawn := uuid_drawn w |}.

Definition put_line (m : message) (w : world) : world :=
  {| data_dir_exists := data_dir_exists w; walk := walk w; store := store w;
     calls := calls w; stdout := stdout w ++ [m];
     uuid_source := uuid_source w; uuid_drawn := uuid_drawn w |}.

Definition print (m : message) : M unit := λ w, (Ok tt, put_line m w).

(** The world after [k] more identifiers were drawn. *)
Definition drawn (k : nat) (w : world) : world :=
  {| data_dir_exists := data_dir_exists w; walk := walk w; store := store w;
     calls := calls w; stdout := stdout w;
     uuid_source := uuid_source w; uuid_drawn := k + uuid_drawn w |}.

(** [str(uuid.uuid4())]: the next draw of the identifier source. *)
Definition uuid4 : M string := λ w,
  (Ok (uuid_source w (uuid_drawn w)), drawn 1 w).

(** *** The vector store client *)

(** [client.delete_collection(name)]: raises when there is no such
    collection. *)
Definition delete_collection (name : string) : M unit := λ w,
  let w := log_call (DeleteCollection name) w in
  match store w !! name with
  | Some _ => (Ok tt, set_store (delete name (store w)) w)
  | None => (Raise (CollectionNotFound name), w)
  end.

(** [client.create_collection(name=name, ...)]: a new, empty collection;
    the handle returned is its name. *)
Definition create_collection (name : string) : M string := λ w,
  let w := log_call (CreateCollection name) w in
  match store w !! name with
  | Some _ => (Raise (CollectionExists name), w)
  | None => (Ok name, set_store (<[name := []]> (store w)) w)
  end.

(** [client.get_collection(name=name, ...)]. *)
Definition get_collection_of (st : gmap string (list record)) (name : string)
    : result (list record) :=
  match st !! name with
  | Some c => Ok c
  | None => Raise (CollectionNotFound name)
  end.

Fixpoint zip3 {A B C} (a : list A) (b : list B) (c : list C)
    : list (A * B * C) :=
  match a, b, c with
  | x :: a', y :: b', z :: c' => (x, y, z) :: zip3 a' b' c'
  | _, _, _ => []
  end.

Definition make_record (t : string * str * gmap string value) : record :=
  {| rec_id := t.1.1; rec_document := t.1.2; rec_metadata := t.2 |}.

(** The largest batch the store takes in one call (the maximum batch size
    of the persistent client). *)
Definition max_batch_size : Z := 5461.

(** The store's validation of a batch: there is at least one id, no more
    ids than the maximum batch size, and as many documents and metadata
    dicts as ids. *)
Definition batch_accepted (ids : list string) (documents : list str)
    (metadatas : list (gmap string value)) : bool :=
  (0 <? len ids)%Z && (len ids <=? max_batch_size)%Z
  && (len documents =? len ids)%Z && (len metadatas =? len ids)%Z.

(** [collection.add(ids=..., documents=..., metadatas=...)]: a batch the
    store refuses raises [ValueError] and nothing is stored. *)
Definition collection_add (name : string) (ids : list string)
    (documents : list str) (metadatas : list (gmap string value)) : M unit :=
  λ w,
  let w := log_call (Add name ids documents metadatas) w in
  match store w !! name with
  | Some c =>
      if batch_accepted ids documents metadatas then
        (Ok tt,
         set_store
           (<[name := c ++ (make_record <$> zip3 ids documents metadatas)]>
              (store w)) w)
      else (Raise ValueError, w)
  | None => (Raise (CollectionNotFound name), w)
  end.

End World.

(** ** ingest.py: walking the data folder and building the index *)

Module Ingest.
Import Text Splitter World.

Definition COLLECTION_NAME : string := "notes".

(** The keys of [LOADERS]. *)
Definition LOADERS : list string := [".txt"; ".md"; ".pdf"].

(** [list(find_documents(DATA_DIR))]: the supported files in walk order,
    each with its text; a loader that raises ends the traversal. *)
Fixpoint find_documents (files : list file) : result (list (string * str)) :=
  match files with
  | [] => Ok []
  | f :: files' =>
      if bool_decide (f_suffix f ∈ LOADERS) then
        match f_read f with
        | None => Raise (LoaderError (f_path f))
        | Some text =>
            match find_documents files' with
            | Ok docs => Ok ((f_path f, text) :: docs)
            | Raise e => Raise e
            end
        end
      else find_documents files'
  end.

(** [enumerate(l)], counting from [i]. *)
Fixpoint enumerate_from {A} (i : Z) (l : list A) : list (Z * A) :=
  match l with
  | [] => []
  | x :: l' => (i, x) :: enumerate_from (i + 1) l'
  end.

Definition enumerate {A} (l : list A) : list (Z * A) := enumerate_from 0 l.

(** The three accumulators of [main]. *)
Record batch := {
  all_ids : list string;
  all_chunks : list str;
  all_metadata : list (gmap string value);
}.

Definition empty_batch : batch :=
  {| all_ids := []; all_chunks := []; all_metadata := [] |}.

(** A [for] loop whose body updates the loop state. *)
Fixpoint for_each {A S} (body : S → A → M S) (l : list A) (s : S) : M S :=
  match l with
  | [] => mret s
  | x :: l' => s' ← body s x; for_each body l' s'
  end.

(** The metadata dict of one chunk. *)
Definition chunk_metadata (path : string) (chunk_index : Z)
    : gmap string value :=
  {[ "source" := VStr path; "chunk_index" := VInt chunk_index ]}.

(** Body of [for chunk_index, chunk_text in enumerate(chunks)]. *)
Definition add_chunk (path : string) (b : batch) (item : Z * str) : M batch :=
  chunk_id ← uuid4;
  mret {| all_ids := all_ids b ++ [chunk_id];
          all_chunks := all_chunks b ++ [item.2];
          all_metadata := all_metadata b ++ [chunk_metadata path item.1] |}.

(** Body of [for path, full_text in docs]; the splitter runs with its
    default parameters and fuel for one more iteration than the text has
    characters. *)
Definition process_document (b : batch) (doc : string * str) : M batch :=
  match split_into_chunks (S (length doc.2)) doc.2 800 200 with
  | None => raise Nontermination
  | Some chunks => for_each (add_chunk doc.1) (enumerate chunks) b
  end.

(** [main()]. *)
Definition main : M unit :=
  w ← get_world;
  if negb (data_dir_exists w) then print MsgNoFolder
  else
    match find_documents (walk w) with
    | Raise e => raise e
    | Ok [] => print MsgNoFiles
    | Ok docs =>
        print (MsgFound (len docs));;
        try_except (delete_collection COLLECTION_NAME) (λ _, mret tt);;
        collection ← create_collection COLLECTION_NAME;
        b ← for_each process_document docs empty_batch;
        print (MsgAdding (len (all_chunks b)));;
        collection_add collection (all_ids b) (all_chunks b) (all_metadata b);;
        print MsgDone
    end.

End Ingest.

(** ** search.py *)

Module Search.
Import Text World.

Definition COLLECTION_NAME : string := "notes".

Section Search.

(** A similarity distance (a Python float, only passed on). *)
Variable float : Type.

(** The dict [collection.query] returns: one entry per query text in each
    array; the key "distances" may be missing. *)
Record reply := {
  documents : list (list str);
  metadatas : list (list (gmap string value));
  distances : option (list (list float));
}.

(** [collection.query(query_texts=[query], n_results=n_results)]: the
    embedding and the nearest-neighbour search of the store, that is the
    reply of the store to a query it answers. *)
Variable query_store : list record → str → Z → reply.

Record hit := {
  text : str;
  source : value;
  chunk_index : value;
  distance : option float;
}.

(** [get_collection()]. *)
Definition get_collection (st : gmap string (list record))
    : result (list record) :=
  get_collection_of st COLLECTION_NAME.

(** [l[0]]. *)
Definition first {A} (l : list A) : result A :=
  match l with
  | x :: _ => Ok x
  | [] => Raise IndexError
  end.

(** One turn of the [for text, meta, dist in zip(...)] loop. *)
Definition make_hit (t : str * gmap string value * option float) : hit :=
  {| text := t.1.1;
     source := default (VStr "unknown") (t.1.2 !! "source");
     chunk_index := default (VInt (-1)) (t.1.2 !! "chunk_index");
     distance := t.2 |}.

(** [search(query, n_results)]. *)
Definition search (st : gmap string (list record)) (query : str)
    (n_results : Z) : result (list hit) :=
  match get_collection st with
  | Raise e => Raise e
  | Ok collection =>
      let results := query_store collection query n_results in
      match first (documents results) with
      | Raise e => Raise e
      | Ok docs =>
          match first (metadatas results) with
          | Raise e => Raise e
          | Ok metas =>
              match first (match distances results with
                           | Some d => fmap (M := list) Some <$> d
                           | None => [replicate (length docs) None]
                           end) with
              | Raise e => Raise e
              | Ok dists => Ok (make_hit <$> zip3 docs metas dists)
              end
          end
      end
  end.

End Search.

End Search.

(** ** ingest.py: the PDF loader *)

Module Loaders.
Import Text.

(** [sep.join(parts)]. *)
Fixpoint join (sep : str) (parts : list str) : str :=
  match parts with
  | [] => []
  | p :: rest =>
      match rest with
      | [] => p
      | _ :: _ => p ++ sep ++ join sep rest
      end
  end.

(** [page.extract_text() or ""]: [None] and the empty string both give the
    empty string. *)
Definition text_or_empty (extracted : option str) : str :=
  match extracted with
  | Some (c :: s) => c :: s
  | Some [] | None => []
  end.

(** [load_pdf(path)], given what [extract_text()] returns for each page of
    the file, in page order. *)
Definition load_pdf (pages : list (option str)) : str :=
  let pages_text := text_or_empty <$> pages in
  join [10%N] pages_text.

End Loaders.

(** ** answer.py *)

Module Answer.
Import Text World Loaders.

Section Answer.

Variable float : Type.
Variable query_store : list record → str → Z → Search.reply float.

(** [textwrap.dedent]. *)
Variable dedent : str → str.

(** What a call of the chat model can raise. *)
Variable chat_error : Type.

(** [ollama.chat(model=..., messages=[{"role": "user", "content": prompt}])]
    followed by [response["message"]["content"]]. *)
Variable chat : string → str → chat_error + str.

(** The separator between chunks in the context. *)
Definition context_separator : str :=
  [10; 10; 45; 45; 45; 10; 10]%N.

(** The three literal pieces of the f-string of [build_prompt]. *)
Definition prompt_head : str :=
  of_string "
        You are an assistant that answers questions using ONLY the context below.
        If the context does not contain the answer, say:
        " ++ [34%N] ++ of_string "I don't know based on these documents."
  ++ [34%N] ++ of_string "

        Context:
        ".

Definition prompt_middle : str :=
  of_string "

        Question: ".

Definition prompt_tail : str :=
  of_string "

        Answer in a concise way.
        ".

(** [build_prompt(question, chunks)]. *)
Definition build_prompt (question : str) (chunks : list (Search.hit float))
    : str :=
  let context_parts := Search.text float <$> chunks in
  let context := join context_separator context_parts in
  strip (dedent (prompt_head ++ context ++ prompt_middle ++ question
                 ++ prompt_tail)).

(** An exception leaving [answer_question]: one of [search], or one of the
    chat call. *)
Inductive answer_exn :=
| FromSearch (e : exn)
| FromChat (e : chat_error).

(** [answer_question(question, n_context_chunks, model_name)]. *)
Definition answer_question (st : gmap string (list record)) (question : str)
    (n_context_chunks : Z) (model_name : string)
    : answer_exn + (str * list (Search.hit float)) :=
  match Search.search float query_store st question n_context_chunks with
  | Raise e => inl (FromSearch e)
  | Ok chunks =>
      let prompt := build_prompt question chunks in
      match chat model_name prompt with
      | inl e => inl (FromChat e)
      | inr answer_text => inr (answer_text, chunks)
      end
  end.

End Answer.

End Answer.

(** ** Sample worlds *)

Module Scenarios.
Import Text World Ingest.

(** Identifiers that differ from draw to draw. *)
Fixpoint sample_uuid (k : nat) : string :=
  match k with
  | O => "id"
  | S k' => "x" +:+ sample_uuid k'
  end.

Definition old_record : record :=
  {| rec_id := "old";
     rec_document := of_string "an earlier note";
     rec_metadata := chunk_metadata "data/old.txt" 0 |}.

Definition world_of (dir : bool) (files : list file)
    (st : gmap string (list record)) : world :=
  {| data_dir_exists := dir; walk := files; store := st; calls := [];
     stdout := []; uuid_source := sample_uuid; uuid_drawn := 0 |}.

(** No data folder and no index. *)
Definition fresh_install : world := world_of false [] ∅.

(** Only a picture under the data folder, and an index from an earlier run. *)
Definition picture_only : world :=
  world_of true
    [{| f_path := "data/logo.png"; f_suffix := ".png"; f_read := None |}]
    {[ "notes" := [old_record] ]}.

(** Two blank documents, and an index from an earlier run. *)
Definition blank_notes : world :=
  world_of true
    [{| f_path := "data/a.txt"; f_suffix := ".txt";
        f_read := Some (of_string "   ") |};
     {| f_path := "data/b.md"; f_suffix := ".md"; f_read := Some [] |}]
    {[ "notes" := [old_record] ]}.

(** A long document (1500 characters, three chunks), a picture and a short
    document; no index yet. *)
Definition three_files : world :=
  world_of true
    [{| f_path := "data/long.txt"; f_suffix := ".txt";
        f_read := Some (replicate 1500 97%N) |};
     {| f_path := "data/logo.png"; f_suffix := ".png"; f_read := None |};
     {| f_path := "data/short.md"; f_suffix := ".md";
        f_read := Some (of_string "hello") |}]
    ∅.

(** A store reply with two documents, the second without metadata keys,
    and no distances. *)
Definition two_matches (coll : list record) (query : str) (n_results : Z)
    : Search.reply Z :=
  {| Search.documents := [[of_string "first"; of_string "second"]];
     Search.metadatas := [[chunk_metadata "data/a.txt" 3; ∅]];
     Search.distances := None |}.

(** A document whose loader raises, between two that can be read. *)
Definition unreadable_file : world :=
  world_of true
    [{| f_path := "data/a.txt"; f_suffix := ".txt";
        f_read := Some (of_string "first") |};
     {| f_path := "data/b.pdf"; f_suffix := ".pdf"; f_read := None |};
     {| f_path := "data/c.md"; f_suffix := ".md";
        f_read := Some (of_string "third") |}]
    {[ "notes" := [old_record] ]}.

(** A second collection beside the index, and one document to ingest. *)
Definition with_archive : world :=
  world_of true
    [{| f_path := "data/a.txt"; f_suffix := ".txt";
        f_read := Some (of_string "first") |}]
    {[ "notes" := [old_record]; "archive" := [old_record; old_record] ]}.

(** A store reply with three documents, two metadata dicts and one
    distance. *)
Definition ragged_reply (coll : list record) (query : str) (n_results : Z)
    : Search.reply Z :=
  {| Search.documents :=
       [[of_string "first"; of_string "second"; of_string "third"]];
     Search.metadatas := [[chunk_metadata "data/a.txt" 0; ∅]];
     Search.distances := Some [[7%Z]] |}.

End Scenarios.

(** * Properties *)

(** ** Strings *)

Module TextFacts.
Import Text.

Lemma drop_while_length {A} (p : A → bool) (l : list A) :
  length (drop_while p l) ≤ length l.
Proof.
  induction l as [|x l IH]; simpl; [lia|].
  destruct (p x); simpl; lia.
Qed.

Lemma strip_length (s : str) : length (strip s) ≤ length s.
Proof.
  unfold strip, rstrip, lstrip.
  rewrite length_rev.
  etransitivity; [apply drop_while_length|].
  rewrite length_rev. apply drop_while_length.
Qed.

Lemma drop_while_all {A} (p : A → bool) (l : list A) :
  Forall (λ x, p x = true) l → drop_while p l = [].
Proof.
  induction 1 as [|x l Hx _ IH]; simpl; [done|]. by rewrite Hx.
Qed.

(** A text made of whitespace only (the empty text included) strips to the
    empty string. *)
Lemma strip_whitespace (s : str) :
  Forall (λ c, isspace c = true) s → strip s = [].
Proof.
  intros H. unfold strip, lstrip, rstrip.
  by rewrite (drop_while_all _ _ H).
Qed.

(** A slice with bounds inside the string. *)
Lemma py_slice_inside {A} (s : list A) (i j : Z) :
  (0 ≤ i ≤ j)%Z → (j ≤ len s)%Z →
  py_slice s i j = take (Z.to_nat (j - i)) (drop (Z.to_nat i) s)
  ∧ len (py_slice s i j) = (j - i)%Z.
Proof.
  intros Hij Hj. unfold py_slice, adjust_index, len in *.
  destruct (Z.ltb_spec i 0); [lia|].
  destruct (Z.ltb_spec j 0); [lia|].
  rewrite !Z.min_l by lia. split; [done|].
  rewrite length_take, length_drop. lia.
Qed.

End TextFacts.

(** ** The chunk splitter *)

Module SplitterFacts.
Import Text TextFacts Splitter.
Local Open Scope Z_scope.

(** The docstring's example. *)
Example docstring_example :
  split_into_chunks 3 (of_string "abcdefghijklmnopqrstuvwxyz") 10 2
  = Some [of_string "abcdefghij"; of_string "ijklmnopqr";
          of_string "qrstuvwxyz"].
Proof. reflexivity. Qed.

(** Surrounding whitespace is not part of any chunk. *)
Example trimmed_example :
  split_into_chunks 2 (of_string "  abcdef ") 4 1
  = Some [of_string "abcd"; of_string "def"].
Proof. reflexivity. Qed.

(** A negative window end counts from the end of the text, as Python
    slices do: [text[0:-1]], then [text[2:1]]. *)
Example negative_max_example :
  split_into_chunks 3 (of_string "abc") (-1) (-3)
  = Some [of_string "ab"; []].
Proof. reflexivity. Qed.

(** The chunks are the texts of the recorded windows. *)
Lemma chunk_loop_windows fuel text n max_chars overlap start ws :
  chunk_loop fuel text n max_chars overlap start (window_text text <$> ws)
  = fmap (M := option) (fmap (window_text text))
      (window_loop fuel n max_chars overlap start ws).
Proof.
  revert start ws. induction fuel as [|fuel IH]; intros start ws; simpl; [done|].
  destruct (start <? n); [|done].
  replace ((window_text text <$> ws) ++ [py_slice text start (Z.min (start + max_chars) n)])
    with (window_text text <$> (ws ++ [(start, Z.min (start + max_chars) n)]))
    by (by rewrite fmap_app).
  destruct (Z.min (start + max_chars) n =? n); [done|]. apply IH.
Qed.

(** With [overlap < max_chars] the cursor moves forward every turn, so a
    unit of fuel per remaining character is enough, and the windows laid
    are a [tiling]. *)
Lemma window_loop_tiling fuel n max_chars overlap start acc :
  0 ≤ overlap < max_chars → 0 ≤ start < n → n - start ≤ Z.of_nat fuel →
  ∃ ws, window_loop fuel n max_chars overlap start acc = Some (acc ++ ws)
        ∧ tiling n max_chars overlap start ws.
Proof.
  intros Hov. revert start acc.
  induction fuel as [|fuel IH]; intros start acc Hstart Hfuel; [lia|].
  simpl. destruct (Z.ltb_spec start n); [|lia].
  destruct (Z.eqb_spec (Z.min (start + max_chars) n) n) as [Heq|Hne].
  - exists [(start, n)]. rewrite Heq. split; [done|].
    apply tiling_last; lia.
  - assert (Hend : Z.min (start + max_chars) n = start + max_chars) by lia.
    rewrite Hend.
    assert (Hnext : Z.max 0 (start + max_chars - overlap)
                    = start + max_chars - overlap) by lia.
    rewrite Hnext.
    destruct (IH (start + max_chars - overlap) (acc ++ [(start, start + max_chars)]))
      as (ws & Hrun & Htil); [lia|lia|].
    exists ((start, start + max_chars) :: ws). split.
    + rewrite Hrun. by rewrite <- app_assoc.
    + apply tiling_next; [lia|lia|done].
Qed.

Section Tiling.
Context (n max_chars overlap : Z).
Hypothesis Hov : 0 ≤ overlap < max_chars.

Lemma tiling_head start ws :
  tiling n max_chars overlap start ws →
  ws !! 0%nat = Some (start, Z.min (start + max_chars) n).
Proof. destruct 1; simpl; do 2 f_equal; lia. Qed.

Lemma tiling_bounds start ws :
  tiling n max_chars overlap start ws →
  Forall (λ w, start ≤ w.1 ∧ w.1 < w.2 ≤ n ∧ w.2 - w.1 ≤ max_chars) ws.
Proof using Hov.
  induction 1 as [start Hs Hn|start ws Hs Hn _ IH].
  - repeat constructor; simpl; lia.
  - constructor; [simpl; lia|].
    eapply Forall_impl; [exact IH|]. simpl. intros w ?. lia.
Qed.

Lemma tiling_last_end start ws :
  tiling n max_chars overlap start ws → ∃ s, last ws = Some (s, n).
Proof.
  induction 1 as [start Hs Hn|start ws Hs Hn Ht [s IH]]; simpl; [eauto|].
  exists s. destruct ws; [inversion Ht|done].
Qed.

(** Consecutive windows: the next one starts [overlap] characters before
    the end of the previous one and ends after it. *)
Lemma tiling_adjacent start ws i s1 e1 s2 e2 :
  tiling n max_chars overlap start ws →
  ws !! i = Some (s1, e1) → ws !! S i = Some (s2, e2) →
  e1 = s1 + max_chars ∧ s2 = e1 - overlap ∧ s1 < s2 ∧ e1 < e2.
Proof using Hov.
  intros Ht. revert i. induction Ht as [start Hs Hn|start ws Hs Hn Ht IH];
    intros i H1 H2.
  - destruct i; simplify_eq/=.
  - destruct i as [|i]; simpl in *.
    + rewrite (tiling_head _ _ Ht) in H2. simplify_eq. lia.
    + eauto.
Qed.

(** Every position of the text lies in some window. *)
Lemma tiling_covers start ws k :
  tiling n max_chars overlap start ws → start ≤ k < n →
  ∃ w, w ∈ ws ∧ w.1 ≤ k < w.2.
Proof using Hov.
  induction 1 as [start Hs Hn|start ws Hs Hn Ht IH]; intros Hk.
  - exists (start, n). split; [by left|simpl; lia].
  - destruct (Z_lt_dec k (start + max_chars)).
    + exists (start, start + max_chars). split; [by left|simpl; lia].
    + destruct IH as (w & Hw & ?); [lia|]. exists w. split; [by right|done].
Qed.

End Tiling.

Lemma tiling_deterministic n max_chars overlap start ws ws' :
  tiling n max_chars overlap start ws → tiling n max_chars overlap start ws' →
  ws = ws'.
Proof.
  intros Ht. revert ws'.
  induction Ht as [start Hs Hn|start ws Hs Hn Ht IH]; intros ws' Ht';
    inversion Ht'; subst; try lia; [done|].
  f_equal. by apply IH.
Qed.

(** More fuel does not change a result. *)
Lemma chunk_loop_fuel_mono fuel fuel' text n max_chars overlap start acc r :
  chunk_loop fuel text n max_chars overlap start acc = Some r →
  (fuel ≤ fuel')%nat →
  chunk_loop fuel' text n max_chars overlap start acc = Some r.
Proof.
  revert fuel' start acc.
  induction fuel as [|fuel IH]; intros fuel' start acc Hrun Hle; [done|].
  destruct fuel' as [|fuel']; [lia|]. simpl in *.
  destruct (start <? n); [|done].
  destruct (Z.min (start + max_chars) n =? n); [done|].
  apply IH; [done|lia].
Qed.

Lemma split_fuel_mono fuel fuel' text max_chars overlap r :
  split_into_chunks fuel text max_chars overlap = Some r →
  (fuel ≤ fuel')%nat →
  split_into_chunks fuel' text max_chars overlap = Some r.
Proof.
  unfold split_into_chunks. destruct (strip text); [done|].
  apply chunk_loop_fuel_mono.
Qed.

(** For [max_chars > overlap >= 0] the splitter returns, and what it
    returns are the texts of a tiling of the trimmed text. *)
Lemma split_windows text max_chars overlap :
  strip text ≠ [] → 0 ≤ overlap < max_chars →
  ∃ ws, tiling (len (strip text)) max_chars overlap 0 ws
    ∧ ∀ fuel, (length (strip text) ≤ fuel)%nat →
        split_into_chunks fuel text max_chars overlap
        = Some (window_text (strip text) <$> ws).
Proof.
  intros Hne Hov. unfold split_into_chunks.
  assert (Hlen : 0 < len (strip text)).
  { unfold len. destruct (strip text); [done|simpl; lia]. }
  destruct (window_loop_tiling (length (strip text)) (len (strip text))
              max_chars overlap 0 [] Hov) as (ws & _ & Ht);
    [lia|unfold len; lia|].
  exists ws. split; [done|]. intros fuel Hfuel.
  destruct (strip text) as [|c t] eqn:Et; [done|]. rewrite <- Et in *.
  change (@nil str) with (window_text (strip text) <$> []).
  rewrite chunk_loop_windows.
  destruct (window_loop_tiling fuel (len (strip text)) max_chars overlap 0 []
              Hov) as (ws' & -> & Ht'); [lia|unfold len; lia|].
  simpl. by rewrite (tiling_deterministic _ _ _ _ _ _ Ht' Ht).
Qed.

(** C2: for a text whose trimmed form [t] is not empty and
    [max_chars > overlap >= 0], [split_into_chunks] returns (with any fuel
    of at least [len(t)]) the texts of windows [(start, end)] over [t] such
    that: the first window starts at 0; every window starts at or before
    the end of the one before it, and ends after it; the last window ends
    at [len(t)]; every position of [t] lies in a window; and every chunk is
    [t[start:end]] with [0 <= start < end <= len(t)], of length
    [end - start <= max_chars]. *)
Theorem split_covers_text (text : str) (max_chars overlap : Z) :
  strip text ≠ [] → 0 ≤ overlap < max_chars →
  ∃ ws : list (Z * Z),
    (∀ fuel, (length (strip text) ≤ fuel)%nat →
       split_into_chunks fuel text max_chars overlap
       = Some (window_text (strip text) <$> ws))
    ∧ (∃ e, ws !! 0%nat = Some (0, e))
    ∧ (∀ i s1 e1 s2 e2,
         ws !! i = Some (s1, e1) → ws !! S i = Some (s2, e2) →
         s2 ≤ e1 ∧ e1 < e2)
    ∧ (∃ s, last ws = Some (s, len (strip text)))
    ∧ (∀ k, 0 ≤ k < len (strip text) → ∃ w, w ∈ ws ∧ w.1 ≤ k < w.2)
    ∧ Forall (λ w,
         0 ≤ w.1 < w.2 ∧ w.2 ≤ len (strip text)
         ∧ window_text (strip text) w
           = take (Z.to_nat (w.2 - w.1)) (drop (Z.to_nat w.1) (strip text))
         ∧ len (window_text (strip text) w) = w.2 - w.1
         ∧ len (window_text (strip text) w) ≤ max_chars) ws.
Proof.
  intros Hne Hov.
  destruct (split_windows text max_chars overlap Hne Hov) as (ws & Ht & Hrun).
  exists ws. split; [exact Hrun|]. split; [|split; [|split; [|split]]].
  - rewrite (tiling_head _ _ _ _ _ Ht). eauto.
  - intros i s1 e1 s2 e2 H1 H2.
    destruct (tiling_adjacent _ _ _ Hov _ _ _ _ _ _ _ Ht H1 H2). lia.
  - exact (tiling_last_end _ _ _ _ _ Ht).
  - intros k Hk. exact (tiling_covers _ _ _ Hov _ _ _ Ht Hk).
  - eapply Forall_impl; [exact (tiling_bounds _ _ _ Hov _ _ Ht)|].
    intros [s e]; simpl. intros (Hs & He & Hmax). unfold window_text; simpl.
    destruct (py_slice_inside (strip text) s e) as [Heq Hlen]; [lia|lia|].
    rewrite Hlen. repeat split; try lia. exact Heq.
Qed.

(** The text shared by two consecutive windows of a tiling. *)
Lemma shared_text (t : str) (s1 e1 s2 e2 overlap : Z) :
  0 ≤ overlap → 0 ≤ s1 < s2 → s2 = e1 - overlap → e1 < e2 → e2 ≤ len t →
  drop (Z.to_nat (e1 - s1 - overlap)) (window_text t (s1, e1))
  = take (Z.to_nat overlap) (window_text t (s2, e2))
  ∧ length (take (Z.to_nat overlap) (window_text t (s2, e2)))
    = Z.to_nat overlap.
Proof.
  intros Hov Hs Hs2 He He2. unfold window_text; simpl.
  destruct (py_slice_inside t s1 e1) as [-> _]; [lia|lia|].
  destruct (py_slice_inside t s2 e2) as [-> _]; [lia|lia|].
  assert (Hcut : take (Z.to_nat overlap) (drop (Z.to_nat s2) t)
                 = drop (Z.to_nat (e1 - s1 - overlap))
                     (take (Z.to_nat (e1 - s1)) (drop (Z.to_nat s1) t))).
  { replace (Z.to_nat (e1 - s1))
      with (Z.to_nat (e1 - s1 - overlap) + Z.to_nat overlap)%nat by lia.
    rewrite <- take_drop_commute, drop_drop.
    by replace (Z.to_nat s1 + Z.to_nat (e1 - s1 - overlap))%nat
      with (Z.to_nat s2) by lia. }
  rewrite take_take, Nat.min_l by lia. split; [by rewrite Hcut|].
  rewrite length_take, length_drop. unfold len in *. lia.
Qed.

(** C3: for a text whose trimmed form [t] is not empty and
    [max_chars > overlap >= 0], any two consecutive chunks come from
    windows [(s1, e1)] and [(s2, e2)] with [s2 = e1 - overlap],
    [s1 < s2] and [e1 < e2]: they share exactly the [overlap] positions
    [s2 .. e1 - 1], and the last [overlap] characters of the first chunk
    are the first [overlap] characters of the second.  On the alphabet with
    [max_chars = 10] and [overlap = 2] the result is
    [text[0:10]], [text[8:18]], [text[16:26]]. *)
Theorem consecutive_chunks_overlap :
  (∀ (text : str) (max_chars overlap : Z),
     strip text ≠ [] → 0 ≤ overlap < max_chars →
     ∃ ws : list (Z * Z),
       (∀ fuel, (length (strip text) ≤ fuel)%nat →
          split_into_chunks fuel text max_chars overlap
          = Some (window_text (strip text) <$> ws))
       ∧ ∀ i s1 e1 s2 e2,
           ws !! i = Some (s1, e1) → ws !! S i = Some (s2, e2) →
           s2 = e1 - overlap ∧ 0 ≤ s1 < s2 ∧ e1 < e2 ≤ len (strip text)
           ∧ drop (Z.to_nat (e1 - s1 - overlap))
               (window_text (strip text) (s1, e1))
             = take (Z.to_nat overlap) (window_text (strip text) (s2, e2))
           ∧ length (take (Z.to_nat overlap)
                       (window_text (strip text) (s2, e2)))
             = Z.to_nat overlap)
  ∧ (let text := of_string "abcdefghijklmnopqrstuvwxyz" in
     split_into_chunks 3 text 10 2
     = Some [py_slice text 0 10; py_slice text 8 18; py_slice text 16 26]).
Proof.
  split; [|reflexivity].
  intros text max_chars overlap Hne Hov.
  destruct (split_windows text max_chars overlap Hne Hov) as (ws & Ht & Hrun).
  exists ws. split; [exact Hrun|].
  intros i s1 e1 s2 e2 H1 H2.
  destruct (tiling_adjacent _ _ _ Hov _ _ _ _ _ _ _ Ht H1 H2)
    as (He1 & Hs2 & Hlt & He).
  pose proof (tiling_bounds _ _ _ Hov _ _ Ht) as Hb.
  rewrite Forall_lookup in Hb.
  pose proof (Hb _ _ H1) as B1. pose proof (Hb _ _ H2) as B2. simpl in *.
  destruct (shared_text (strip text) s1 e1 s2 e2 overlap) as [Hsh Hlen];
    try lia.
  repeat split; try lia; done.
Qed.

(** C7: a text whose trimmed form is not empty and has at most
    [max_chars] characters gives exactly one chunk, the trimmed text,
    whatever the overlap; so does "ABCDEFGHIJ" with [max_chars = 10] and
    [overlap = 2]. *)
Theorem short_text_single_chunk :
  (∀ (text : str) (max_chars overlap : Z) (fuel : nat),
     strip text ≠ [] → len (strip text) ≤ max_chars → (1 ≤ fuel)%nat →
     split_into_chunks fuel text max_chars overlap = Some [strip text])
  ∧ split_into_chunks 1 (of_string "ABCDEFGHIJ") 10 2
    = Some [of_string "ABCDEFGHIJ"].
Proof.
  split; [|reflexivity].
  intros text max_chars overlap fuel Hne Hlen Hfuel. unfold split_into_chunks.
  destruct (strip text) as [|c t] eqn:Et; [done|]. rewrite <- Et in *.
  assert (0 < len (strip text)) by (rewrite Et; unfold len; simpl; lia).
  destruct fuel as [|fuel]; [lia|]. simpl.
  destruct (Z.ltb_spec 0 (len (strip text))); [|lia].
  rewrite Z.min_r, Z.eqb_refl by lia. simpl.
  destruct (py_slice_inside (strip text) 0 (len (strip text))) as [-> _];
    [lia|lia|].
  unfold len. rewrite Z.sub_0_r, Nat2Z.id. simpl. by rewrite firstn_all.
Qed.

(** Every chunk the loop appends is non-empty when [max_chars > 0]: the
    cursor is never negative and the window end lies beyond it. *)
Lemma chunk_loop_nonempty fuel text max_chars overlap start acc chunks :
  0 < max_chars → 0 ≤ start →
  Forall (λ c : str, c ≠ []) acc →
  chunk_loop fuel text (len text) max_chars overlap start acc = Some chunks →
  Forall (λ c : str, c ≠ []) chunks.
Proof.
  intros Hmax. revert start acc.
  induction fuel as [|fuel IH]; intros start acc Hstart Hacc Hrun; [done|].
  simpl in Hrun. destruct (Z.ltb_spec start (len text)); [|by simplify_eq].
  assert (Hadd : Forall (λ c : str, c ≠ [])
            (acc ++ [py_slice text start (Z.min (start + max_chars) (len text))])).
  { apply Forall_app. split; [done|]. constructor; [|done].
    destruct (py_slice_inside text start (Z.min (start + max_chars) (len text)))
      as [_ Hlen]; [lia|lia|].
    intros Hnil. rewrite Hnil in Hlen. unfold len in Hlen at 1.
    simpl in Hlen. lia. }
  destruct (Z.min (start + max_chars) (len text) =? len text);
    [by simplify_eq|].
  eapply IH; [|exact Hadd|exact Hrun]. lia.
Qed.

(** C8, as the code has it: an empty or whitespace-only text gives no chunk,
    whatever the parameters; and for [max_chars > 0] (any overlap) every
    chunk returned is a non-empty string. *)
Theorem chunks_nonempty :
  (∀ (text : str) (max_chars overlap : Z) (fuel : nat),
     Forall (λ c, isspace c = true) text →
     split_into_chunks fuel text max_chars overlap = Some [])
  ∧ (∀ (text : str) (max_chars overlap : Z) (fuel : nat) (chunks : list str),
       0 < max_chars →
       split_into_chunks fuel text max_chars overlap = Some chunks →
       Forall (λ c, c ≠ []) chunks).
Proof.
  split.
  - intros text max_chars overlap fuel Hws. unfold split_into_chunks.
    by rewrite (strip_whitespace _ Hws).
  - intros text max_chars overlap fuel chunks Hmax. unfold split_into_chunks.
    destruct (strip text) as [|c t] eqn:Et.
    + intros [= <-]. constructor.
    + rewrite <- Et. apply chunk_loop_nonempty; [done|lia|constructor].
Qed.

(** C8 as stated fails for [max_chars <= 0]: on "abc" with
    [max_chars = 0] and [overlap = -1] the splitter returns three empty
    chunks. *)
Lemma empty_chunks_returned :
  split_into_chunks 4 (of_string "abc") 0 (-1) = Some [[]; []; []]
  ∧ ¬ (∀ (text : str) (max_chars overlap : Z) (fuel : nat) (chunks : list str),
         split_into_chunks fuel text max_chars overlap = Some chunks →
         Forall (λ c, c ≠ []) chunks).
Proof.
  split; [reflexivity|]. intros H.
  specialize (H (of_string "abc") 0 (-1) 4%nat [[]; []; []] eq_refl).
  by inversion H.
Qed.

(** With [0 < max_chars <= overlap] and a trimmed text longer than
    [max_chars], the cursor is set back to 0 after every chunk and the loop
    never exits. *)
Lemma chunk_loop_stalls fuel text n max_chars overlap acc :
  0 < max_chars ≤ overlap → max_chars < n →
  chunk_loop fuel text n max_chars overlap 0 acc = None.
Proof.
  intros Hov Hn. revert acc. induction fuel as [|fuel IH]; intros acc; [done|].
  simpl. destruct (Z.ltb_spec 0 n); [|lia].
  destruct (Z.eqb_spec (Z.min (0 + max_chars) n) n); [lia|].
  replace (Z.max 0 (Z.min (0 + max_chars) n - overlap)) with 0 by lia.
  apply IH.
Qed.

Lemma split_stalls text max_chars overlap fuel :
  0 < max_chars ≤ overlap → max_chars < len (strip text) →
  split_into_chunks fuel text max_chars overlap = None.
Proof.
  intros Hov Hn. unfold split_into_chunks.
  destruct (strip text) as [|c t] eqn:Et; [unfold len in Hn; simpl in Hn; lia|].
  by apply chunk_loop_stalls.
Qed.

(** C1 fails on the code: on "abc" with [max_chars = 1] and [overlap = 1]
    the loop is still running whatever fuel it is given. *)
Theorem split_never_returns :
  ∀ fuel : nat, split_into_chunks fuel (of_string "abc") 1 1 = None.
Proof. intros fuel. by apply split_stalls. Qed.

(** The alphabet with blanks around it, [max_chars = 10], [overlap = 2]:
    the splitter returns, and its last window ends at 26. *)
Lemma split_covers_text_witness :
  strip (of_string "  abcdefghijklmnopqrstuvwxyz ") ≠ []
  ∧ 0 ≤ 2 < 10
  ∧ ∃ ws : list (Z * Z),
      split_into_chunks 26 (of_string "  abcdefghijklmnopqrstuvwxyz ") 10 2
      = Some (window_text (strip (of_string "  abcdefghijklmnopqrstuvwxyz "))
                <$> ws)
      ∧ ∃ s, last ws = Some (s, 26).
Proof.
  assert (Hne : strip (of_string "  abcdefghijklmnopqrstuvwxyz ") ≠ [])
    by (vm_compute; discriminate).
  assert (Hov : 0 ≤ 2 < 10) by lia.
  split; [exact Hne|]. split; [exact Hov|].
  destruct (split_covers_text _ 10 2 Hne Hov)
    as (ws & Hrun & _ & _ & Hlast & _).
  exists ws. split; [apply Hrun; vm_compute; lia|exact Hlast].
Defined.

Lemma consecutive_chunks_overlap_witness :
  strip (of_string "abcdefghijklmnopqrstuvwxyz") ≠ []
  ∧ 0 ≤ 2 < 10
  ∧ ∃ ws : list (Z * Z),
      split_into_chunks 26 (of_string "abcdefghijklmnopqrstuvwxyz") 10 2
      = Some (window_text (strip (of_string "abcdefghijklmnopqrstuvwxyz"))
                <$> ws)
      ∧ ∀ i s1 e1 s2 e2,
          ws !! i = Some (s1, e1) → ws !! S i = Some (s2, e2) →
          s2 = e1 - 2.
Proof.
  assert (Hne : strip (of_string "abcdefghijklmnopqrstuvwxyz") ≠ [])
    by (vm_compute; discriminate).
  assert (Hov : 0 ≤ 2 < 10) by lia.
  split; [exact Hne|]. split; [exact Hov|].
  destruct (proj1 consecutive_chunks_overlap _ 10 2 Hne Hov)
    as (ws & Hrun & Hadj).
  exists ws. split; [apply Hrun; vm_compute; lia|].
  intros i s1 e1 s2 e2 H1 H2. exact (proj1 (Hadj i s1 e1 s2 e2 H1 H2)).
Defined.

Lemma short_text_single_chunk_witness :
  strip (of_string " ABCDEFGHIJ ") ≠ []
  ∧ len (strip (of_string " ABCDEFGHIJ ")) ≤ 10
  ∧ (1 ≤ 1)%nat
  ∧ split_into_chunks 1 (of_string " ABCDEFGHIJ ") 10 2
    = Some [strip (of_string " ABCDEFGHIJ ")].
Proof.
  assert (Hne : strip (of_string " ABCDEFGHIJ ") ≠ [])
    by (vm_compute; discriminate).
  assert (Hlen : len (strip (of_string " ABCDEFGHIJ ")) ≤ 10)
    by (vm_compute; discriminate).
  split; [exact Hne|]. split; [exact Hlen|]. split; [lia|].
  exact (proj1 short_text_single_chunk _ 10 2 1%nat Hne Hlen (le_n 1)).
Defined.

Lemma chunks_nonempty_witness :
  Forall (λ c, isspace c = true) (of_string "   ")
  ∧ split_into_chunks 0 (of_string "   ") 10 2 = Some []
  ∧ 0 < 10
  ∧ split_into_chunks 3 (of_string "abcdefghijklmnopqrstuvwxyz") 10 2
    = Some [of_string "abcdefghij"; of_string "ijklmnopqr";
            of_string "qrstuvwxyz"]
  ∧ Forall (λ c : str, c ≠ [])
      [of_string "abcdefghij"; of_string "ijklmnopqr"; of_string "qrstuvwxyz"].
Proof.
  assert (Hws : Forall (λ c, isspace c = true) (of_string "   "))
    by (repeat constructor).
  assert (Hrun : split_into_chunks 3 (of_string "abcdefghijklmnopqrstuvwxyz")
                   10 2
                 = Some [of_string "abcdefghij"; of_string "ijklmnopqr";
                         of_string "qrstuvwxyz"]) by reflexivity.
  split; [exact Hws|].
  split; [exact (proj1 chunks_nonempty _ 10 2 0%nat Hws)|].
  split; [lia|]. split; [exact Hrun|].
  exact (proj2 chunks_nonempty _ 10 2 3%nat _ eq_refl Hrun).
Defined.

End SplitterFacts.

(** ** Ingestion *)

Module IngestFacts.
Import Text TextFacts Splitter SplitterFacts World Ingest.

Lemma drawn_0 w : drawn 0 w = w.
Proof. by destruct w. Qed.

Lemma drawn_drawn a b w : drawn a (drawn b w) = drawn (a + b) w.
Proof. unfold drawn; simpl. f_equal. lia. Qed.

(** With the default parameters the splitter always returns within the
    fuel [main] gives it. *)
Lemma split_default_returns (text : str) :
  ∃ chunks, split_into_chunks (S (length text)) text 800 200 = Some chunks.
Proof.
  destruct (decide (strip text = [])) as [He|Hne].
  - exists []. unfold split_into_chunks. by rewrite He.
  - destruct (split_windows text 800 200 Hne) as (ws & _ & Hrun); [lia|].
    eexists. apply Hrun. pose proof (strip_length text). lia.
Qed.

Lemma split_whitespace (text : str) max_chars overlap fuel :
  Forall (λ c, isspace c = true) text →
  split_into_chunks fuel text max_chars overlap = Some [].
Proof.
  intros Hws. unfold split_into_chunks. by rewrite (strip_whitespace _ Hws).
Qed.

(** The files the walker keeps are those with a registered suffix. *)
Lemma find_documents_none (files : list file) :
  (∀ f, f ∈ files → f_suffix f ∉ LOADERS) → find_documents files = Ok [].
Proof.
  induction files as [|f files IH]; intros Hno; simpl; [done|].
  rewrite bool_decide_eq_false_2 by (apply Hno; by left).
  apply IH. intros g Hg. apply Hno. by right.
Qed.

Lemma bind_run {A B} (m : M A) (f : A → M B) (w : world) :
  (m ≫= f) w
  = match m w with
    | (Ok a, w') => f a w'
    | (Raise e, w') => (Raise e, w')
    end.
Proof. reflexivity. Qed.

Lemma for_each_cons {A S} (body : S → A → M S) x l s w :
  for_each body (x :: l) s w
  = match body s x w with
    | (Ok s', w') => for_each body l s' w'
    | (Raise e, w') => (Raise e, w')
    end.
Proof. reflexivity. Qed.

Lemma add_chunk_run path b item w :
  add_chunk path b item w
  = (Ok {| all_ids := all_ids b ++ [uuid_source w (uuid_drawn w)];
           all_chunks := all_chunks b ++ [item.2];
           all_metadata := all_metadata b ++ [chunk_metadata path item.1] |},
     drawn 1 w).
Proof. reflexivity. Qed.

(** The inner loop: one identifier drawn per chunk, the chunks appended in
    order, and the indices counting up from [i]. *)
Lemma add_chunks_run (path : string) (chunks : list str) :
  ∀ (i : Z) (b : batch) (w : world),
  ∃ ids, length ids = length chunks
    ∧ for_each (add_chunk path) (enumerate_from i chunks) b w
      = (Ok {| all_ids := all_ids b ++ ids;
               all_chunks := all_chunks b ++ chunks;
               all_metadata := all_metadata b
                 ++ imap (λ k _, chunk_metadata path (i + Z.of_nat k)) chunks |},
         drawn (length chunks) w).
Proof.
  induction chunks as [|c chunks IH]; intros i b w.
  - exists []. split; [done|]. simpl. rewrite !app_nil_r, drawn_0.
    by destruct b.
  - destruct (IH (i + 1)%Z
               {| all_ids := all_ids b ++ [uuid_source w (uuid_drawn w)];
                  all_chunks := all_chunks b ++ [c];
                  all_metadata := all_metadata b ++ [chunk_metadata path i] |}
               (drawn 1 w)) as (ids & Hlen & Hrun).
    exists (uuid_source w (uuid_drawn w) :: ids). split; [simpl; lia|].
    simpl in Hrun. simpl enumerate_from.
    rewrite for_each_cons, add_chunk_run. simpl fst; simpl snd.
    rewrite Hrun, drawn_drawn, Nat.add_1_r. rewrite <- !app_assoc. simpl.
    replace (i + Z.of_nat 0)%Z with i by lia.
    rewrite (imap_ext (λ k _, chunk_metadata path (i + 1 + Z.of_nat k))
               ((λ k _, chunk_metadata path (i + Z.of_nat k)) ∘ S) chunks);
      [done|].
    intros k x _. simpl. f_equal. lia.
Qed.

(** One document: its chunks are appended in order, numbered from 0. *)
Lemma process_document_run (b : batch) (doc : string * str) (w : world) :
  ∃ chunks ids,
    split_into_chunks (S (length doc.2)) doc.2 800 200 = Some chunks
    ∧ length ids = length chunks
    ∧ process_document b doc w
      = (Ok {| all_ids := all_ids b ++ ids;
               all_chunks := all_chunks b ++ chunks;
               all_metadata := all_metadata b
                 ++ imap (λ k _, chunk_metadata doc.1 (Z.of_nat k)) chunks |},
         drawn (length ids) w).
Proof.
  destruct (split_default_returns doc.2) as [chunks Hsplit].
  destruct (add_chunks_run doc.1 chunks 0 b w) as (ids & Hlen & Hrun).
  exists chunks, ids. split; [done|]. split; [done|].
  unfold process_document. rewrite Hsplit. unfold enumerate.
  rewrite Hrun, Hlen. do 3 f_equal.
Qed.

(** The metadata dicts of a document's chunks. *)
Lemma process_documents_run (docs : list (string * str)) :
  ∀ (b : batch) (w : world),
  ∃ (chunkss : list (list str)) (ids : list string),
    Forall2 (λ doc chunks,
      split_into_chunks (S (length doc.2)) doc.2 800 200 = Some chunks)
      docs chunkss
    ∧ length ids = length (concat chunkss)
    ∧ for_each process_document docs b w
      = (Ok {| all_ids := all_ids b ++ ids;
               all_chunks := all_chunks b ++ concat chunkss;
               all_metadata := all_metadata b
                 ++ concat (zip_with
                      (λ doc chunks,
                         imap (λ k _, chunk_metadata doc.1 (Z.of_nat k)) chunks)
                      docs chunkss) |},
         drawn (length ids) w).
Proof.
  induction docs as [|doc docs IH]; intros b w.
  - exists [], []. split; [constructor|]. split; [done|].
    simpl. rewrite !app_nil_r, drawn_0. by destruct b.
  - destruct (process_document_run b doc w) as (chunks & ids & Hs & Hlen & Hrun).
    match type of Hrun with _ = (Ok ?b1, ?w1) =>
      destruct (IH b1 w1) as (chunkss & ids' & Hall & Hlen' & Hrun') end.
    exists (chunks :: chunkss), (ids ++ ids'). split; [by constructor|].
    split; [simpl; rewrite !length_app; lia|].
    rewrite for_each_cons, Hrun, Hrun'. simpl.
    rewrite drawn_drawn, <- !app_assoc, length_app.
    by rewrite (Nat.add_comm (length ids')).
Qed.

Lemma world_eq (w w' : world) :
  data_dir_exists w = data_dir_exists w' → walk w = walk w' →
  store w = store w' → calls w = calls w' → stdout w = stdout w' →
  uuid_source w = uuid_source w' → uuid_drawn w = uuid_drawn w' →
  w = w'.
Proof. destruct w, w'; simpl; intros; by subst. Qed.

Lemma set_store_same (w : world) : set_store (store w) w = w.
Proof. by destruct w. Qed.

(** [try: client.delete_collection(name) except Exception: pass] leaves no
    collection of that name, whether there was one or not. *)
Lemma drop_collection_run (name : string) (w : world) :
  try_except (delete_collection name) (λ _, mret tt) w
  = (Ok tt,
     set_store (delete name (store w)) (log_call (DeleteCollection name) w)).
Proof.
  unfold try_except, delete_collection. cbv zeta.
  change (store (log_call (DeleteCollection name) w)) with (store w).
  destruct (store w !! name) as [c|] eqn:Hc; [done|].
  rewrite (delete_id _ _ Hc).
  change (store w) with (store (log_call (DeleteCollection name) w)) at 1.
  by rewrite set_store_same.
Qed.

Lemma create_collection_run (name : string) (w : world) :
  store w !! name = None →
  create_collection name w
  = (Ok name,
     set_store (<[name := []]> (store w)) (log_call (CreateCollection name) w)).
Proof.
  intros Hc. unfold create_collection. cbv zeta.
  change (store (log_call (CreateCollection name) w)) with (store w).
  by rewrite Hc.
Qed.

Lemma collection_add_run (name : string) c ids documents metadatas (w : world) :
  store w !! name = Some c →
  collection_add name ids documents metadatas w
  = if batch_accepted ids documents metadatas then
      (Ok tt,
       set_store
         (<[name := c ++ (make_record <$> zip3 ids documents metadatas)]>
            (store w))
         (log_call (Add name ids documents metadatas) w))
    else (Raise ValueError, log_call (Add name ids documents metadatas) w).
Proof.
  intros Hc. unfold collection_add. cbv zeta.
  change (store (log_call (Add name ids documents metadatas) w)) with (store w).
  by rewrite Hc.
Qed.

(** For a batch with as many documents and metadata dicts as ids, the
    store only looks at the number of ids. *)
Lemma batch_accepted_aligned ids documents metadatas :
  length documents = length ids → length metadatas = length ids →
  batch_accepted ids documents metadatas
  = ((0 <? len ids)%Z && (len ids <=? max_batch_size)%Z).
Proof.
  intros Hd Hm. unfold batch_accepted, len. rewrite Hd, Hm, Z.eqb_refl.
  by rewrite !andb_true_r.
Qed.

(** There is one metadata dict per chunk. *)
Lemma metadata_length (docs : list (string * str)) (chunkss : list (list str)) :
  length docs = length chunkss →
  length (concat (zip_with
    (λ doc chunks, imap (λ k _, chunk_metadata doc.1 (Z.of_nat k)) chunks)
    docs chunkss))
  = length (concat chunkss).
Proof.
  revert chunkss. induction docs as [|doc docs IH]; intros [|chunks chunkss] Hl;
    simplify_eq/=; [done|].
  rewrite !length_app, length_imap. f_equal. by apply IH.
Qed.

(** A run of [main] that finds documents, from the end of its loops on:
    the old collection is dropped, a new one is created and the batch is
    handed to the store, which takes it or refuses it. *)
Lemma main_after_loops (w : world) (d : string * str)
    (docs : list (string * str)) (b : batch) (k : nat) :
  data_dir_exists w = true →
  find_documents (walk w) = Ok (d :: docs) →
  (let w1 := put_line (MsgFound (len (d :: docs))) w in
   let w2 := set_store (delete COLLECTION_NAME (store w1))
               (log_call (DeleteCollection COLLECTION_NAME) w1) in
   let w3 := set_store (<[COLLECTION_NAME := []]> (store w2))
               (log_call (CreateCollection COLLECTION_NAME) w2) in
   for_each process_document (d :: docs) empty_batch w3 = (Ok b, drawn k w3)) →
  let accepted := batch_accepted (all_ids b) (all_chunks b) (all_metadata b) in
  main w
  = (if accepted then Ok tt else Raise ValueError,
     {| data_dir_exists := true; walk := walk w;
        store := <[COLLECTION_NAME :=
                    if accepted
                    then make_record
                           <$> zip3 (all_ids b) (all_chunks b) (all_metadata b)
                    else []]> (store w);
        calls := calls w
          ++ [DeleteCollection COLLECTION_NAME;
              CreateCollection COLLECTION_NAME;
              Add COLLECTION_NAME (all_ids b) (all_chunks b) (all_metadata b)];
        stdout := stdout w
          ++ [MsgFound (len (d :: docs)); MsgAdding (len (all_chunks b))]
          ++ (if accepted then [MsgDone] else []);
        uuid_source := uuid_source w;
        uuid_drawn := k + uuid_drawn w |}).
Proof.
  intros Hdir Hfind. cbv zeta.
  set (w1 := put_line (MsgFound (len (d :: docs))) w).
  set (w2 := set_store (delete COLLECTION_NAME (store w1))
               (log_call (DeleteCollection COLLECTION_NAME) w1)).
  set (w3 := set_store (<[COLLECTION_NAME := []]> (store w2))
               (log_call (CreateCollection COLLECTION_NAME) w2)).
  intros Hrun.
  unfold main. rewrite bind_run. unfold get_world. cbv beta iota.
  rewrite Hdir, Hfind. cbv beta iota delta [negb].
  rewrite bind_run. unfold print at 1. cbv beta iota. fold w1.
  rewrite bind_run, drop_collection_run. cbv beta iota. fold w2.
  rewrite bind_run, create_collection_run by apply lookup_delete_eq.
  cbv beta iota. fold w3.
  rewrite bind_run, Hrun. cbv beta iota.
  rewrite bind_run. unfold print at 1. cbv beta iota.
  rewrite bind_run.
  rewrite (collection_add_run COLLECTION_NAME []) by apply lookup_insert_eq.
  destruct (batch_accepted (all_ids b) (all_chunks b) (all_metadata b));
    cbv beta iota; unfold print; f_equal; unfold w3, w2, w1;
    apply world_eq;
    cbn [data_dir_exists walk store calls stdout uuid_source uuid_drawn
         set_store log_call put_line drawn app]; try done.
  - by rewrite insert_insert_eq, insert_delete_eq.
  - by rewrite <- !app_assoc.
  - by rewrite <- !app_assoc.
  - by rewrite insert_delete_eq.
  - by rewrite <- !app_assoc.
  - by rewrite <- !app_assoc.
Qed.

(** A run of [main] that finds documents: the batch it hands to the store,
    and how the run ends when the store takes the batch (it is not empty
    and within the maximum batch size) and when it refuses it. *)
Lemma main_rebuild (w : world) (d : string * str) (docs : list (string * str)) :
  data_dir_exists w = true →
  find_documents (walk w) = Ok (d :: docs) →
  ∃ (chunkss : list (list str)) (ids : list string),
    Forall2 (λ doc chunks,
      split_into_chunks (S (length doc.2)) doc.2 800 200 = Some chunks)
      (d :: docs) chunkss
    ∧ length ids = length (concat chunkss)
    ∧ let metas :=
        concat (zip_with
          (λ doc chunks,
             imap (λ k _, chunk_metadata doc.1 (Z.of_nat k)) chunks)
          (d :: docs) chunkss) in
      let accepted :=
        ((0 <? len (concat chunkss))%Z
         && (len (concat chunkss) <=? max_batch_size)%Z) in
      main w
      = (if accepted then Ok tt else Raise ValueError,
         {| data_dir_exists := true; walk := walk w;
            store := <[COLLECTION_NAME :=
                        if accepted
                        then make_record <$> zip3 ids (concat chunkss) metas
                        else []]> (store w);
            calls := calls w
              ++ [DeleteCollection COLLECTION_NAME;
                  CreateCollection COLLECTION_NAME;
                  Add COLLECTION_NAME ids (concat chunkss) metas];
            stdout := stdout w
              ++ [MsgFound (len (d :: docs)); MsgAdding (len (concat chunkss))]
              ++ (if accepted then [MsgDone] else []);
            uuid_source := uuid_source w;
            uuid_drawn := length ids + uuid_drawn w |}).
Proof.
  intros Hdir Hfind.
  match type of (main_after_loops w d docs) with
  | ∀ b k, _ → _ → (let w1 := ?a in let w2 := ?b2 in let w3 := ?c in _) → _ =>
      destruct (process_documents_run (d :: docs) empty_batch
                  (let w1 := a in let w2 := b2 in let w3 := c in w3))
        as (chunkss & ids & Hall & Hlen & Hrun)
  end.
  exists chunkss, ids. split; [done|]. split; [done|]. cbv zeta.
  rewrite (main_after_loops w d docs _ _ Hdir Hfind Hrun).
  cbn [all_ids all_chunks all_metadata empty_batch app].
  rewrite batch_accepted_aligned;
    [|done|by rewrite (metadata_length _ _ (Forall2_length _ _ _ Hall))].
  assert (Hl : len ids = len (concat chunkss))
    by (unfold len; by rewrite Hlen).
  by rewrite Hl.
Qed.

Lemma chunk_metadata_lookup (path : string) (k : Z) :
  chunk_metadata path k !! "chunk_index" = Some (VInt k)
  ∧ chunk_metadata path k !! "source" = Some (VStr path).
Proof. unfold chunk_metadata. split; by simplify_map_eq. Qed.

(** Documents that are blank give no chunk and no metadata. *)
Lemma blank_documents_no_chunks (docs : list (string * str)) chunkss :
  Forall2 (λ doc chunks,
    split_into_chunks (S (length doc.2)) doc.2 800 200 = Some chunks)
    docs chunkss →
  Forall (λ doc, Forall (λ c, isspace c = true) doc.2) docs →
  concat chunkss = []
  ∧ concat (zip_with
      (λ doc chunks, imap (λ k _, chunk_metadata doc.1 (Z.of_nat k)) chunks)
      docs chunkss) = [].
Proof.
  induction 1 as [|doc chunks docs chunkss Hs _ IH]; intros Hblank; [done|].
  inversion Hblank as [|? ? Hd Hrest]; subst.
  rewrite (split_whitespace _ _ _ _ Hd) in Hs. simplify_eq. simpl.
  by apply IH.
Qed.

(** A run of [main] that finds nothing to index prints one message and
    stops. *)
Lemma main_nothing_found (w : world) :
  data_dir_exists w = false ∨ (∀ f, f ∈ walk w → f_suffix f ∉ LOADERS) →
  ∃ msg, (msg = MsgNoFolder ∨ msg = MsgNoFiles)
    ∧ main w = (Ok tt, put_line msg w).
Proof.
  intros Hnone. unfold main. rewrite bind_run. unfold get_world.
  cbv beta iota. destruct (data_dir_exists w) eqn:Hdir.
  - destruct Hnone as [?|Hno]; [done|].
    rewrite (find_documents_none _ Hno). exists MsgNoFiles. eauto.
  - exists MsgNoFolder. eauto.
Qed.

Lemma find_documents_raises (files : list file) (e : exn) :
  find_documents files = Raise e → ∃ path, e = LoaderError path.
Proof.
  induction files as [|f files IH]; simpl; [done|].
  destruct (bool_decide (f_suffix f ∈ LOADERS)); [|done].
  destruct (f_read f); [|intros [= <-]; eauto].
  destruct (find_documents files); [done|].
  intros [= <-]. by apply IH.
Qed.

(** The fuel [main] gives the splitter is never used up. *)
Lemma main_never_diverges (w : world) : (main w).1 ≠ Raise Nontermination.
Proof.
  destruct (data_dir_exists w) eqn:Hdir.
  - destruct (find_documents (walk w)) as [[|d docs]|e] eqn:Hfind.
    + unfold main. rewrite bind_run. unfold get_world. cbv beta iota.
      by rewrite Hdir, Hfind.
    + destruct (main_rebuild w d docs Hdir Hfind) as (? & ? & _ & _ & Hrun).
      cbv zeta in Hrun. rewrite Hrun. cbn [fst]. by destruct (_ && _).
    + destruct (find_documents_raises _ _ Hfind) as [path ->].
      unfold main. rewrite bind_run. unfold get_world. cbv beta iota.
      by rewrite Hdir, Hfind.
  - destruct (main_nothing_found w (or_introl Hdir)) as (msg & _ & ->). done.
Qed.

(** C4: when the data folder does not exist, or no file under it has a
    registered suffix, [main] prints one message and returns; the store and
    the log of calls made to it are as before.  Conversely a run that
    changed the store, or called it at all, had the folder and found at
    least one document. *)
Theorem no_documents_no_rebuild :
  (∀ w : world,
     data_dir_exists w = false ∨ (∀ f, f ∈ walk w → f_suffix f ∉ LOADERS) →
     ∃ msg, (msg = MsgNoFolder ∨ msg = MsgNoFiles)
       ∧ main w = (Ok tt, put_line msg w)
       ∧ store (main w).2 = store w
       ∧ calls (main w).2 = calls w)
  ∧ (∀ w : world,
       store (main w).2 ≠ store w ∨ calls (main w).2 ≠ calls w →
       data_dir_exists w = true
       ∧ ∃ d docs, find_documents (walk w) = Ok (d :: docs)).
Proof.
  split.
  - intros w Hnone.
    destruct (main_nothing_found w Hnone) as (msg & Hmsg & Hrun).
    exists msg. rewrite Hrun. eauto.
  - intros w Hchanged. unfold main in Hchanged. rewrite bind_run in Hchanged.
    unfold get_world in Hchanged. cbv beta iota in Hchanged.
    destruct (data_dir_exists w); simpl in Hchanged; [|by destruct Hchanged].
    split; [done|].
    destruct (find_documents (walk w)) as [[|d docs]|e]; simpl in Hchanged;
      [by destruct Hchanged|eauto|by destruct Hchanged].
Qed.

(** C9: a document's chunks enter the batch in the order
    [split_into_chunks] returned them, the chunk at position [k] with
    [chunk_index = k] and the document's path as [source]; and the batch a
    run of [main] that found documents hands to the store (whether the
    store then takes it or refuses it) is, document after document in walk
    order, those chunks with those metadata, so the indices of each
    document are 0, 1, 2, ... without gap or repeat. *)
Theorem chunk_indices_contiguous :
  (∀ (b : batch) (doc : string * str) (w : world),
     ∃ chunks b' w',
       split_into_chunks (S (length doc.2)) doc.2 800 200 = Some chunks
       ∧ process_document b doc w = (Ok b', w')
       ∧ all_chunks b' = all_chunks b ++ chunks
       ∧ all_metadata b'
         = all_metadata b
           ++ imap (λ k _, chunk_metadata doc.1 (Z.of_nat k)) chunks
       ∧ ∀ (k : nat) c, chunks !! k = Some c →
           all_chunks b' !! (length (all_chunks b) + k)%nat = Some c
           ∧ ∃ m, all_metadata b' !! (length (all_metadata b) + k)%nat = Some m
               ∧ m !! "chunk_index" = Some (VInt (Z.of_nat k))
               ∧ m !! "source" = Some (VStr doc.1))
  ∧ (∀ (w : world) (d : string * str) (docs : list (string * str)),
       data_dir_exists w = true →
       find_documents (walk w) = Ok (d :: docs) →
       ∃ (chunkss : list (list str)) (ids : list string),
         Forall2 (λ doc chunks,
           split_into_chunks (S (length doc.2)) doc.2 800 200 = Some chunks)
           (d :: docs) chunkss
         ∧ length ids = length (concat chunkss)
         ∧ calls (main w).2
           = calls w
             ++ [DeleteCollection COLLECTION_NAME;
                 CreateCollection COLLECTION_NAME;
                 Add COLLECTION_NAME ids (concat chunkss)
                   (concat (zip_with
                      (λ doc chunks,
                         imap (λ k _, chunk_metadata doc.1 (Z.of_nat k)) chunks)
                      (d :: docs) chunkss))]).
Proof.
  split.
  - intros b doc w.
    destruct (process_document_run b doc w) as (chunks & ids & Hs & Hlen & Hrun).
    do 3 eexists. split; [exact Hs|]. split; [exact Hrun|]. simpl.
    split; [done|]. split; [done|]. intros k c Hk. split.
    + rewrite lookup_app_r by lia.
      by replace (length (all_chunks b) + k - length (all_chunks b))%nat
        with k by lia.
    + exists (chunk_metadata doc.1 (Z.of_nat k)).
      split; [|apply chunk_metadata_lookup].
      rewrite lookup_app_r by lia.
      replace (length (all_metadata b) + k - length (all_metadata b))%nat
        with k by lia.
      by rewrite list_lookup_imap, Hk.
  - intros w d docs Hdir Hfind.
    destruct (main_rebuild w d docs Hdir Hfind)
      as (chunkss & ids & Hall & Hlen & Hrun).
    exists chunkss, ids. split; [done|]. split; [done|].
    cbv zeta in Hrun. by rewrite Hrun.
Qed.

(** C10: when the walker finds at least one document and every document is
    empty or whitespace-only, [main] still deletes the collection, creates
    it again and hands the store a batch of zero chunks.  The store refuses
    the empty batch, so the run ends in its exception after the line that
    announces 0 chunks; whatever the collection held before, it is empty
    afterwards. *)
Theorem blank_documents_empty_index (w : world) (d : string * str)
    (docs : list (string * str)) :
  data_dir_exists w = true →
  find_documents (walk w) = Ok (d :: docs) →
  Forall (λ doc, Forall (λ c, isspace c = true) doc.2) (d :: docs) →
  (main w).1 = Raise ValueError
  ∧ calls (main w).2
    = calls w ++ [DeleteCollection COLLECTION_NAME;
                  CreateCollection COLLECTION_NAME;
                  Add COLLECTION_NAME [] [] []]
  ∧ stdout (main w).2
    = stdout w ++ [MsgFound (len (d :: docs)); MsgAdding 0]
  ∧ store (main w).2 = <[COLLECTION_NAME := []]> (store w)
  ∧ store (main w).2 !! COLLECTION_NAME = Some [].
Proof.
  intros Hdir Hfind Hblank.
  destruct (main_rebuild w d docs Hdir Hfind)
    as (chunkss & ids & Hall & Hlen & Hrun).
  destruct (blank_documents_no_chunks _ _ Hall Hblank) as [Hc Hm].
  cbv zeta in Hrun. rewrite Hm, Hc in Hrun. rewrite Hc in Hlen.
  destruct ids; [|done]. rewrite Hrun. simpl.
  repeat split. apply lookup_insert_eq.
Qed.

(** A folder holding only a picture: the earlier index stays; and the run
    over three files, which did call the store, had found documents. *)
Lemma no_documents_no_rebuild_witness :
  (data_dir_exists Scenarios.picture_only = false
   ∨ ∀ f, f ∈ walk Scenarios.picture_only → f_suffix f ∉ LOADERS)
  ∧ store (main Scenarios.picture_only).2 = store Scenarios.picture_only
  ∧ calls (main Scenarios.picture_only).2 = []
  ∧ (store (main Scenarios.three_files).2 ≠ store Scenarios.three_files
     ∨ calls (main Scenarios.three_files).2 ≠ calls Scenarios.three_files)
  ∧ ∃ d docs, find_documents (walk Scenarios.three_files) = Ok (d :: docs).
Proof.
  assert (Hnone : data_dir_exists Scenarios.picture_only = false
                  ∨ ∀ f, f ∈ walk Scenarios.picture_only →
                         f_suffix f ∉ LOADERS).
  { right. intros f Hf. apply list_elem_of_singleton in Hf. subst f.
    apply (bool_decide_unpack _). vm_compute. exact I. }
  assert (Hcalled :
    store (main Scenarios.three_files).2 ≠ store Scenarios.three_files
    ∨ calls (main Scenarios.three_files).2 ≠ calls Scenarios.three_files).
  { right. vm_compute. discriminate. }
  split; [exact Hnone|].
  destruct (proj1 no_documents_no_rebuild _ Hnone) as (msg & _ & _ & Hst & Hc).
  split; [exact Hst|]. split; [exact Hc|]. split; [exact Hcalled|].
  exact (proj2 (proj2 no_documents_no_rebuild _ Hcalled)).
Defined.

(** Three files, two of them documents: the long one gets three chunks. *)
Lemma chunk_indices_contiguous_witness :
  data_dir_exists Scenarios.three_files = true
  ∧ find_documents (walk Scenarios.three_files)
    = Ok [("data/long.txt", replicate 1500 97%N);
          ("data/short.md", Text.of_string "hello")]
  ∧ ∃ (chunkss : list (list str)) (ids : list string),
      length ids = length (concat chunkss)
      ∧ calls (main Scenarios.three_files).2
        = [DeleteCollection COLLECTION_NAME;
           CreateCollection COLLECTION_NAME;
           Add COLLECTION_NAME ids (concat chunkss)
             (concat (zip_with
                (λ doc chunks,
                   imap (λ k _, chunk_metadata doc.1 (Z.of_nat k)) chunks)
                [("data/long.txt", replicate 1500 97%N);
                 ("data/short.md", Text.of_string "hello")]
                chunkss))].
Proof.
  assert (Hdir : data_dir_exists Scenarios.three_files = true) by reflexivity.
  assert (Hfind : find_documents (walk Scenarios.three_files)
                  = Ok [("data/long.txt", replicate 1500 97%N);
                        ("data/short.md", Text.of_string "hello")])
    by (vm_compute; reflexivity).
  split; [exact Hdir|]. split; [exact Hfind|].
  destruct (proj2 chunk_indices_contiguous _ _ _ Hdir Hfind)
    as (chunkss & ids & _ & Hlen & Hcalls).
  exists chunkss, ids. split; [exact Hlen|exact Hcalls].
Defined.

(** Two blank documents over an earlier index: the index ends up empty and
    the run ends in the store's exception. *)
Lemma blank_documents_empty_index_witness :
  data_dir_exists Scenarios.blank_notes = true
  ∧ find_documents (walk Scenarios.blank_notes)
    = Ok [("data/a.txt", Text.of_string "   "); ("data/b.md", [])]
  ∧ Forall (λ doc : string * str, Forall (λ c, isspace c = true) doc.2)
      [("data/a.txt", Text.of_string "   "); ("data/b.md", [])]
  ∧ store Scenarios.blank_notes !! COLLECTION_NAME = Some [Scenarios.old_record]
  ∧ (main Scenarios.blank_notes).1 = Raise ValueError
  ∧ store (main Scenarios.blank_notes).2 !! COLLECTION_NAME = Some [].
Proof.
  assert (Hdir : data_dir_exists Scenarios.blank_notes = true) by reflexivity.
  assert (Hfind : find_documents (walk Scenarios.blank_notes)
                  = Ok [("data/a.txt", Text.of_string "   "); ("data/b.md", [])])
    by (vm_compute; reflexivity).
  assert (Hblank :
    Forall (λ doc : string * str, Forall (λ c, isspace c = true) doc.2)
      [("data/a.txt", Text.of_string "   "); ("data/b.md", [])])
    by (repeat constructor).
  split; [exact Hdir|]. split; [exact Hfind|]. split; [exact Hblank|].
  split; [reflexivity|].
  split; [exact (proj1 (blank_documents_empty_index _ _ _ Hdir Hfind Hblank))|].
  exact (proj2 (proj2 (proj2 (proj2
    (blank_documents_empty_index _ _ _ Hdir Hfind Hblank))))).
Defined.

End IngestFacts.

(** ** Search *)

Module SearchFacts.
Import Text World Search.

Lemma zip3_length {A B C} (a : list A) (b : list B) (c : list C) :
  length b = length a → length c = length a →
  length (zip3 a b c) = length a.
Proof.
  revert b c. induction a as [|x a IH]; intros [|y b] [|z c] Hb Hc;
    simplify_eq/=; [done|]. f_equal. by apply IH.
Qed.

Lemma zip3_lookup {A B C} (a : list A) (b : list B) (c : list C) i x y z :
  a !! i = Some x → b !! i = Some y → c !! i = Some z →
  zip3 a b c !! i = Some (x, y, z).
Proof.
  revert b c i. induction a as [|x' a IH]; intros [|y' b] [|z' c] [|i];
    intros Ha Hb Hc; simplify_eq/=; [done|]. by apply IH.
Qed.

Section Facts.
Context (float : Type) (query_store : list record → str → Z → reply float).

(** C5: with no collection named "notes" in the store, [search] raises the
    store's "collection not found" and returns no list, not even an empty
    one; this is also the case after a run of [main] that found nothing to
    index in a store that had no such collection. *)
Theorem search_before_ingest :
  (∀ (st : gmap string (list record)) (query : str) (n_results : Z),
     st !! "notes" = None →
     search float query_store st query n_results
     = Raise (CollectionNotFound "notes")
     ∧ search float query_store st query n_results ≠ Ok [])
  ∧ (∀ (w : world) (query : str) (n_results : Z),
       store w !! "notes" = None →
       data_dir_exists w = false
       ∨ (∀ f, f ∈ walk w → f_suffix f ∉ Ingest.LOADERS) →
       search float query_store (store (Ingest.main w).2) query n_results
       = Raise (CollectionNotFound "notes")).
Proof.
  assert (Hraise : ∀ st query n_results, st !! "notes" = None →
            search float query_store st query n_results
            = Raise (CollectionNotFound "notes")).
  { intros st query n_results Hst.
    unfold search, get_collection, get_collection_of, COLLECTION_NAME.
    by rewrite Hst. }
  split.
  - intros st query n_results Hst. by rewrite Hraise.
  - intros w query n_results Hst Hnone. apply Hraise.
    destruct (IngestFacts.main_nothing_found w Hnone) as (msg & _ & ->).
    exact Hst.
Qed.

(** C6: when the store's reply for the one query text has as many metadata
    dicts as documents, and either no "distances" key or as many distances
    as documents, [search] returns one hit per document, in the store's
    order: hit [i] has document [i] as text, the [source] and
    [chunk_index] of metadata [i] ("unknown" and -1 where the key is
    missing) and distance [i] (no distance at all when the reply has no
    "distances" key).  So there are as many hits as documents, at most
    [n_results] when the store returned at most that many. *)
Theorem search_hits (st : gmap string (list record)) (coll : list record)
    (query : str) (n_results : Z)
    (docs : list str) (rest_docs : list (list str))
    (metas : list (gmap string value))
    (rest_metas : list (list (gmap string value))) :
  let results := query_store coll query n_results in
  st !! "notes" = Some coll →
  documents float results = docs :: rest_docs →
  metadatas float results = metas :: rest_metas →
  length metas = length docs →
  (distances float results = None
   ∨ ∃ dists rest, distances float results = Some (dists :: rest)
                   ∧ length dists = length docs) →
  ∃ hits : list (hit float),
    search float query_store st query n_results = Ok hits
    ∧ length hits = length docs
    ∧ (Z.of_nat (length docs) ≤ n_results →
       Z.of_nat (length hits) ≤ n_results)%Z
    ∧ ∀ (i : nat) (t : str), docs !! i = Some t →
        ∃ (m : gmap string value) (h : hit float),
          metas !! i = Some m ∧ hits !! i = Some h
          ∧ text float h = t
          ∧ (∀ v, m !! "source" = Some v → source float h = v)
          ∧ (m !! "source" = None → source float h = VStr "unknown")
          ∧ (∀ v, m !! "chunk_index" = Some v → chunk_index float h = v)
          ∧ (m !! "chunk_index" = None → chunk_index float h = VInt (-1))
          ∧ (distances float results = None → distance float h = None)
          ∧ (∀ dists rest,
               distances float results = Some (dists :: rest) →
               ∃ x, dists !! i = Some x ∧ distance float h = Some x).
Proof.
  intros results Hst Hdocs Hmetas Hlen Hdist.
  set (dists := match distances float results with
                | Some d => fmap (M := list) Some <$> d
                | None => [replicate (length docs) None]
                end).
  assert (Hd : ∃ ds rest, dists = ds :: rest ∧ length ds = length docs
            ∧ (distances float results = None → ds = replicate (length docs) None)
            ∧ (∀ d rest', distances float results = Some (d :: rest') →
                 ds = Some <$> d)).
  { unfold dists. destruct Hdist as [Hn|(d & rest & Hs & Hl)].
    - rewrite Hn. exists (replicate (length docs) None), [].
      rewrite length_replicate. split; [done|]. split; [done|].
      split; [done|]. intros d rest' Hc. discriminate Hc.
    - rewrite Hs. exists (Some <$> d), (fmap (M := list) Some <$> rest).
      rewrite length_fmap. split; [done|]. split; [done|].
      split; [intros Hc; discriminate Hc|].
      intros d' rest' Hc. by simplify_eq. }
  destruct Hd as (ds & rest & Hds & Hdl & HdN & HdS).
  exists (make_hit float <$> zip3 docs metas ds).
  assert (Hzl : length (zip3 docs metas ds) = length docs)
    by (by apply zip3_length).
  split; [|split; [|split]].
  - unfold search, get_collection, get_collection_of, COLLECTION_NAME.
    rewrite Hst. fold results. rewrite Hdocs, Hmetas. simpl first.
    cbv beta iota. fold dists. by rewrite Hds.
  - by rewrite length_fmap.
  - rewrite length_fmap, Hzl. done.
  - intros i t Hi.
    assert (Hlt : (i < length docs)%nat) by (by eapply lookup_lt_Some).
    destruct (lookup_lt_is_Some_2 metas i) as [m Hm]; [lia|].
    destruct (lookup_lt_is_Some_2 ds i) as [x Hx]; [lia|].
    exists m, (make_hit float (t, m, x)).
    split; [done|]. split.
    { by rewrite list_lookup_fmap, (zip3_lookup _ _ _ _ _ _ _ Hi Hm Hx). }
    unfold make_hit; simpl. split; [done|].
    split; [by intros v ->|]. split; [by intros ->|].
    split; [by intros v ->|]. split; [by intros ->|]. split.
    + intros Hn. rewrite (HdN Hn) in Hx.
      apply lookup_replicate in Hx. by destruct Hx.
    + intros d rest' Hs. rewrite (HdS _ _ Hs), list_lookup_fmap in Hx.
      destruct (d !! i) as [y|]; simplify_eq/=. eauto.
Qed.

End Facts.

(** An empty store; and a store whose reply has two documents, the second
    without metadata keys, and no distances. *)
Lemma search_before_ingest_witness :
  (∅ : gmap string (list record)) !! "notes" = None
  ∧ search Z Scenarios.two_matches ∅ (of_string "anything") 5
    = Raise (CollectionNotFound "notes")
  ∧ store Scenarios.fresh_install !! "notes" = None
  ∧ data_dir_exists Scenarios.fresh_install = false
  ∧ search Z Scenarios.two_matches
      (store (Ingest.main Scenarios.fresh_install).2) (of_string "anything") 5
    = Raise (CollectionNotFound "notes").
Proof.
  assert (Hst : (∅ : gmap string (list record)) !! "notes" = None)
    by reflexivity.
  assert (Hw : store Scenarios.fresh_install !! "notes" = None)
    by reflexivity.
  assert (Hdir : data_dir_exists Scenarios.fresh_install = false)
    by reflexivity.
  split; [exact Hst|]. split.
  { exact (proj1 (proj1 (search_before_ingest Z Scenarios.two_matches)
                    ∅ (of_string "anything") 5%Z Hst)). }
  split; [exact Hw|]. split; [exact Hdir|].
  exact (proj2 (search_before_ingest Z Scenarios.two_matches)
           Scenarios.fresh_install (of_string "anything") 5%Z Hw
           (or_introl Hdir)).
Defined.

Lemma search_hits_witness :
  ({[ "notes" := [Scenarios.old_record] ]} : gmap string (list record))
    !! "notes" = Some [Scenarios.old_record]
  ∧ ∃ hits : list (hit Z),
      search Z Scenarios.two_matches {[ "notes" := [Scenarios.old_record] ]}
        (of_string "anything") 5 = Ok hits
      ∧ length hits = 2.
Proof.
  assert (Hst : ({[ "notes" := [Scenarios.old_record] ]}
                   : gmap string (list record)) !! "notes"
                = Some [Scenarios.old_record]) by reflexivity.
  split; [exact Hst|].
  destruct (search_hits Z Scenarios.two_matches _ _ (of_string "anything") 5%Z
              [of_string "first"; of_string "second"] []
              [Ingest.chunk_metadata "data/a.txt" 3; ∅] []
              Hst eq_refl eq_refl eq_refl (or_introl eq_refl))
    as (hits & Hrun & Hlen & _).
  exists hits. split; [exact Hrun|exact Hlen].
Defined.

End SearchFacts.

(** * Further properties *)

(** ** Trimming *)

Module TextMore.
Import Text TextFacts.

Lemma drop_while_split {A} (p : A → bool) (l : list A) :
  ∃ pre, l = pre ++ drop_while p l ∧ Forall (λ x, p x = true) pre.
Proof.
  induction l as [|x l (pre & Hl & Hpre)]; [by exists []|].
  simpl. destruct (p x) eqn:Hx.
  - exists (x :: pre). split; [simpl; by f_equal|by constructor].
  - by exists [].
Qed.

Lemma drop_while_head {A} (p : A → bool) (l : list A) x r :
  drop_while p l = x :: r → p x = false.
Proof.
  induction l as [|y l IH]; simpl; [done|].
  destruct (p y) eqn:Hy; [done|]. by intros [= <- _].
Qed.

Lemma drop_while_idem {A} (p : A → bool) (l : list A) :
  drop_while p (drop_while p l) = drop_while p l.
Proof.
  induction l as [|x l IH]; simpl; [done|].
  destruct (p x) eqn:Hx; [done|]. simpl. by rewrite Hx.
Qed.

(** A string is its trimmed form with whitespace before and after. *)
Lemma strip_decompose (s : str) :
  ∃ pre post, s = pre ++ strip s ++ post
    ∧ Forall (λ c, isspace c = true) pre
    ∧ Forall (λ c, isspace c = true) post.
Proof.
  destruct (drop_while_split isspace s) as (pre & Hs & Hpre).
  destruct (drop_while_split isspace (rev (drop_while isspace s)))
    as (x & Hx & Hxs).
  exists pre, (rev x). split; [|split; [done|by apply Forall_rev]].
  unfold strip, rstrip, lstrip. rewrite <- rev_app_distr, <- Hx.
  by rewrite rev_involutive.
Qed.

Lemma strip_head (s : str) c r : strip s = c :: r → isspace c = false.
Proof.
  unfold strip, rstrip, lstrip. intros Hs.
  destruct (drop_while_split isspace (rev (drop_while isspace s)))
    as (x & Hx & _).
  apply (f_equal (@rev N)) in Hx.
  rewrite rev_involutive, rev_app_distr, Hs in Hx. simpl in Hx.
  by apply (drop_while_head _ _ _ _ Hx).
Qed.

Lemma last_rev {A} (l : list A) : last (rev l) = head l.
Proof. destruct l as [|x l]; [done|]. simpl. apply last_snoc. Qed.

Lemma strip_last (s : str) c : last (strip s) = Some c → isspace c = false.
Proof.
  unfold strip, rstrip. rewrite last_rev.
  destruct (drop_while isspace (rev (lstrip s))) as [|y r] eqn:Hd; [done|].
  intros [= ->]. by apply (drop_while_head _ _ _ _ Hd).
Qed.

Lemma strip_idempotent (s : str) : strip (strip s) = strip s.
Proof.
  destruct (strip s) as [|c r] eqn:Hs; [done|].
  pose proof (strip_head _ _ _ Hs) as Hc. rewrite <- Hs.
  unfold strip at 1. unfold lstrip. rewrite Hs. simpl drop_while.
  rewrite Hc, <- Hs. unfold rstrip, strip at 1, rstrip.
  by rewrite rev_involutive, drop_while_idem.
Qed.

Lemma drop_while_app_all {A} (p : A → bool) (pre l : list A) :
  Forall (λ x, p x = true) pre → drop_while p (pre ++ l) = drop_while p l.
Proof. induction 1 as [|x pre Hx _ IH]; simpl; [done|]. by rewrite Hx. Qed.

Lemma drop_while_app_keep {A} (p : A → bool) (l m : list A) :
  drop_while p l ≠ [] → drop_while p (l ++ m) = drop_while p l ++ m.
Proof.
  induction l as [|x l IH]; simpl; [done|]. destruct (p x); [done|]. done.
Qed.

(** Whitespace put before and after a string is trimmed away with its
    own. *)
Lemma strip_pad (pre s post : str) :
  Forall (λ c, isspace c = true) pre → Forall (λ c, isspace c = true) post →
  strip (pre ++ s ++ post) = strip s.
Proof.
  intros Hpre Hpost. unfold strip, lstrip.
  rewrite (drop_while_app_all _ _ _ Hpre).
  destruct (drop_while isspace s) as [|c r] eqn:Hs.
  - destruct (drop_while_split isspace s) as (x & Hx & Hxs).
    rewrite Hs, app_nil_r in Hx. subst x.
    rewrite drop_while_all; [done|]. by apply Forall_app.
  - rewrite drop_while_app_keep by (by rewrite Hs). rewrite Hs.
    unfold rstrip. rewrite rev_app_distr.
    by rewrite (drop_while_app_all _ _ _ (Forall_rev Hpost)).
Qed.

End TextMore.

(** ** More about the chunk splitter *)

Module SplitterMore.
Import Text TextFacts TextMore Splitter SplitterFacts.
Local Open Scope Z_scope.

Section TilingShape.
Context (n max_chars overlap : Z).
Hypothesis Hov : 0 ≤ overlap < max_chars.

(** Window [i] starts [i] steps after the first one. *)
Lemma tiling_nth start ws (i : nat) s e :
  tiling n max_chars overlap start ws → ws !! i = Some (s, e) →
  s = start + Z.of_nat i * (max_chars - overlap)
  ∧ e = Z.min (s + max_chars) n ∧ 0 ≤ s < n.
Proof using Hov.
  intros Ht. revert i.
  induction Ht as [start Hs Hn|start ws Hs Hn Ht IH]; intros i Hi.
  - destruct i; simplify_eq/=. lia.
  - destruct i as [|i]; simplify_eq/=; [lia|].
    destruct (IH _ Hi) as (-> & -> & ?). lia.
Qed.

(** The number of windows. *)
Lemma tiling_length start ws :
  tiling n max_chars overlap start ws →
  Z.of_nat (length ws)
  = 1 + (Z.max 0 (n - start - max_chars) + (max_chars - overlap) - 1)
        / (max_chars - overlap).
Proof using Hov.
  induction 1 as [start Hs Hn|start ws Hs Hn Ht IH].
  - rewrite Z.max_l by lia. rewrite Z.div_small by lia. simpl. lia.
  - simpl length. rewrite Nat2Z.inj_succ, IH.
    rewrite (Z.max_r 0 (n - start - max_chars)) by lia.
    replace (n - start - max_chars + (max_chars - overlap) - 1)
      with ((n - start - max_chars - 1) + 1 * (max_chars - overlap)) by lia.
    rewrite Z.div_add by lia.
    destruct (Z_le_dec (n - start - max_chars) (max_chars - overlap)).
    + rewrite Z.max_l by lia.
      rewrite (Z.div_small (0 + _ - 1)) by lia.
      rewrite (Z.div_small (n - start - max_chars - 1)) by lia. lia.
    + rewrite Z.max_r by lia.
      replace (n - (start + max_chars - overlap) - max_chars
               + (max_chars - overlap) - 1)
        with (n - start - max_chars - 1) by lia. lia.
Qed.

(** All windows but the last are full. *)
Lemma tiling_full start ws (i : nat) s e :
  tiling n max_chars overlap start ws → ws !! i = Some (s, e) →
  (S i < length ws)%nat → e = s + max_chars.
Proof using Hov.
  intros Ht Hi Hlt.
  destruct (lookup_lt_is_Some_2 ws (S i) Hlt) as [[s2 e2] H2].
  destruct (tiling_adjacent _ _ _ Hov _ _ _ _ _ _ _ Ht Hi H2). lia.
Qed.

(** Dropping the first [overlap] characters of every window's text and
    joining what is left gives the text from [start + overlap] on. *)
Lemma tiling_join (t : str) start ws :
  n = len t → tiling n max_chars overlap start ws →
  concat (drop (Z.to_nat overlap) <$> (window_text t <$> ws))
  = drop (Z.to_nat (start + overlap)) t.
Proof using Hov.
  intros Hn. induction 1 as [start Hs Hle|start ws Hs Hlt Ht IH];
    rewrite !fmap_cons; cbn [concat]; unfold window_text at 1;
    cbn [fst snd].
  - destruct (py_slice_inside t start n) as [-> _]; [lia|lia|].
    rewrite app_nil_r, take_ge, drop_drop
      by (rewrite length_drop; unfold len in *; lia).
    f_equal. lia.
  - destruct (py_slice_inside t start (start + max_chars)) as [-> _];
      [lia|lia|].
    rewrite IH.
    replace (Z.to_nat (start + max_chars - overlap + overlap))
      with (Z.to_nat start + Z.to_nat max_chars)%nat by lia.
    replace (Z.to_nat (start + max_chars - start)) with (Z.to_nat max_chars)
      by lia.
    rewrite <- (drop_drop t (Z.to_nat max_chars)), drop_take_drop by lia.
    rewrite drop_drop. f_equal. lia.
Qed.

End TilingShape.

(** X1: Chunk [i] is the slice of the trimmed text that starts at
    [i * (max_chars - overlap)] and is [max_chars] long, or reaches the end
    of the text. *)
Theorem chunk_positions (text : str) (max_chars overlap : Z) :
  strip text ≠ [] → 0 ≤ overlap < max_chars →
  ∃ chunks : list str,
    (∀ fuel, (length (strip text) ≤ fuel)%nat →
       split_into_chunks fuel text max_chars overlap = Some chunks)
    ∧ ∀ (i : nat) (c : str), chunks !! i = Some c →
        let s := Z.of_nat i * (max_chars - overlap) in
        s < len (strip text)
        ∧ c = py_slice (strip text) s (Z.min (s + max_chars) (len (strip text))).
Proof.
  intros Hne Hov.
  destruct (split_windows text max_chars overlap Hne Hov) as (ws & Ht & Hrun).
  exists (window_text (strip text) <$> ws). split; [exact Hrun|].
  intros i c Hi s. rewrite list_lookup_fmap in Hi.
  destruct (ws !! i) as [[s' e']|] eqn:Hw; simplify_eq/=.
  destruct (tiling_nth _ _ _ Hov _ _ _ _ _ Ht Hw) as (Hs & He & Hb).
  unfold window_text; simpl. subst s. split; [lia|].
  rewrite He, Hs. f_equal; lia.
Qed.

Lemma chunk_positions_witness :
  strip (of_string " abcdefghijklmnopqrstuvwxyz") ≠ []
  ∧ 0 ≤ 2 < 10
  ∧ ∃ chunks : list str,
      split_into_chunks 26 (of_string " abcdefghijklmnopqrstuvwxyz") 10 2
      = Some chunks
      ∧ ∀ c, chunks !! 2%nat = Some c →
          c = py_slice (strip (of_string " abcdefghijklmnopqrstuvwxyz")) 16 26.
Proof.
  assert (Hne : strip (of_string " abcdefghijklmnopqrstuvwxyz") ≠ [])
    by (vm_compute; discriminate).
  assert (Hov : 0 ≤ 2 < 10) by lia.
  split; [exact Hne|]. split; [exact Hov|].
  destruct (chunk_positions _ 10 2 Hne Hov) as (chunks & Hrun & Hpos).
  exists chunks. split; [apply Hrun; vm_compute; lia|].
  intros c Hc. exact (proj2 (Hpos 2%nat c Hc)).
Defined.

(** X2: The number of chunks: one when the trimmed text fits in a window, else
    one more than the number of steps of [max_chars - overlap] characters
    needed to cover what lies beyond the first window. *)
Theorem chunk_count (text : str) (max_chars overlap : Z) :
  strip text ≠ [] → 0 ≤ overlap < max_chars →
  ∃ chunks : list str,
    (∀ fuel, (length (strip text) ≤ fuel)%nat →
       split_into_chunks fuel text max_chars overlap = Some chunks)
    ∧ Z.of_nat (length chunks)
      = 1 + (Z.max 0 (len (strip text) - max_chars)
             + (max_chars - overlap) - 1) / (max_chars - overlap).
Proof.
  intros Hne Hov.
  destruct (split_windows text max_chars overlap Hne Hov) as (ws & Ht & Hrun).
  exists (window_text (strip text) <$> ws). split; [exact Hrun|].
  rewrite length_fmap, (tiling_length _ _ _ Hov _ _ Ht).
  by rewrite Z.sub_0_r.
Qed.

Lemma chunk_count_witness :
  strip (Text.of_string "abcdefghijklmnopqrstuvwxyz") ≠ []
  ∧ 0 ≤ 2 < 10
  ∧ ∃ chunks : list str,
      split_into_chunks 26 (of_string "abcdefghijklmnopqrstuvwxyz") 10 2
      = Some chunks
      ∧ Z.of_nat (length chunks) = 3.
Proof.
  assert (Hne : strip (of_string "abcdefghijklmnopqrstuvwxyz") ≠ [])
    by (vm_compute; discriminate).
  assert (Hov : 0 ≤ 2 < 10) by lia.
  split; [exact Hne|]. split; [exact Hov|].
  destruct (chunk_count _ 10 2 Hne Hov) as (chunks & Hrun & Hlen).
  exists chunks. split; [apply Hrun; vm_compute; lia|].
  rewrite Hlen. reflexivity.
Defined.

(** X3: The trimmed text is the first chunk followed by every later chunk
    without its first [overlap] characters. *)
Theorem chunks_reassemble (text : str) (max_chars overlap : Z) :
  strip text ≠ [] → 0 ≤ overlap < max_chars →
  ∃ (c : str) (rest : list str),
    (∀ fuel, (length (strip text) ≤ fuel)%nat →
       split_into_chunks fuel text max_chars overlap = Some (c :: rest))
    ∧ c ++ concat (drop (Z.to_nat overlap) <$> rest) = strip text.
Proof.
  intros Hne Hov.
  destruct (split_windows text max_chars overlap Hne Hov) as (ws & Ht & Hrun).
  assert (Hlen : 0 < len (strip text)).
  { unfold len. destruct (strip text); [done|simpl; lia]. }
  inversion Ht as [start Hs Hn|start ws' Hs Hn Ht']; subst.
  - exists (window_text (strip text) (0, len (strip text))), [].
    split; [exact Hrun|]. unfold window_text; simpl.
    destruct (py_slice_inside (strip text) 0 (len (strip text))) as [-> _];
      [lia|lia|].
    rewrite app_nil_r. simpl. apply take_ge. unfold len. lia.
  - exists (window_text (strip text) (0, 0 + max_chars)),
      (window_text (strip text) <$> ws').
    split; [exact Hrun|].
    rewrite (tiling_join _ _ _ Hov _ _ _ eq_refl Ht').
    unfold window_text; simpl.
    destruct (py_slice_inside (strip text) 0 (0 + max_chars)) as [-> _];
      [lia|lia|].
    change (Z.to_nat 0) with 0%nat. cbn [drop].
    replace (Z.to_nat (0 + max_chars - overlap + overlap))
      with (Z.to_nat (0 + max_chars - 0)) by lia.
    apply take_drop.
Qed.

Lemma chunks_reassemble_witness :
  strip (of_string "abcdefghijklmnopqrstuvwxyz") ≠ []
  ∧ 0 ≤ 2 < 10
  ∧ ∃ (c : str) (rest : list str),
      split_into_chunks 26 (of_string "abcdefghijklmnopqrstuvwxyz") 10 2
      = Some (c :: rest)
      ∧ c ++ concat (drop 2 <$> rest)
        = strip (of_string "abcdefghijklmnopqrstuvwxyz").
Proof.
  assert (Hne : strip (of_string "abcdefghijklmnopqrstuvwxyz") ≠ [])
    by (vm_compute; discriminate).
  assert (Hov : 0 ≤ 2 < 10) by lia.
  split; [exact Hne|]. split; [exact Hov|].
  destruct (chunks_reassemble _ 10 2 Hne Hov) as (c & rest & Hrun & Hjoin).
  exists c, rest. split; [apply Hrun; vm_compute; lia|exact Hjoin].
Defined.

(** X4: Every chunk but the last has exactly [max_chars] characters, and a last
    chunk that is not the only one has more than [overlap] characters. *)
Theorem chunk_lengths (text : str) (max_chars overlap : Z) :
  strip text ≠ [] → 0 ≤ overlap < max_chars →
  ∃ chunks : list str,
    (∀ fuel, (length (strip text) ≤ fuel)%nat →
       split_into_chunks fuel text max_chars overlap = Some chunks)
    ∧ ∀ (i : nat) (c : str), chunks !! i = Some c →
        ((S i < length chunks)%nat → len c = max_chars)
        ∧ (S i = length chunks → (0 < i)%nat → overlap < len c ≤ max_chars).
Proof.
  intros Hne Hov.
  destruct (split_windows text max_chars overlap Hne Hov) as (ws & Ht & Hrun).
  exists (window_text (strip text) <$> ws). split; [exact Hrun|].
  intros i c Hi. rewrite length_fmap. rewrite list_lookup_fmap in Hi.
  destruct (ws !! i) as [[s e]|] eqn:Hw; simplify_eq/=.
  pose proof (tiling_bounds _ _ _ Hov _ _ Ht) as Hb.
  rewrite Forall_lookup in Hb. pose proof (Hb _ _ Hw) as Hse. simpl in Hse.
  unfold window_text; simpl.
  destruct (py_slice_inside (strip text) s e) as [_ ->]; [lia|lia|].
  split.
  - intros Hlt. rewrite (tiling_full _ _ _ Hov _ _ _ _ _ Ht Hw Hlt). lia.
  - intros _ Hpos. destruct i as [|i]; [lia|].
    destruct (lookup_lt_is_Some_2 ws i) as [[s0 e0] H0];
      [apply lookup_lt_Some in Hw; lia|].
    destruct (tiling_adjacent _ _ _ Hov _ _ _ _ _ _ _ Ht H0 Hw). lia.
Qed.

Lemma chunk_lengths_witness :
  strip (of_string "abcdefghijklmnopqrstuvwxyz") ≠ []
  ∧ 0 ≤ 2 < 10
  ∧ ∃ chunks : list str,
      split_into_chunks 26 (of_string "abcdefghijklmnopqrstuvwxyz") 10 2
      = Some chunks
      ∧ ∀ c, chunks !! 0%nat = Some c → (1 < length chunks)%nat → len c = 10.
Proof.
  assert (Hne : strip (of_string "abcdefghijklmnopqrstuvwxyz") ≠ [])
    by (vm_compute; discriminate).
  assert (Hov : 0 ≤ 2 < 10) by lia.
  split; [exact Hne|]. split; [exact Hov|].
  destruct (chunk_lengths _ 10 2 Hne Hov) as (chunks & Hrun & Hlen).
  exists chunks. split; [apply Hrun; vm_compute; lia|].
  intros c Hc. exact (proj1 (Hlen 0%nat c Hc)).
Defined.

(** With [overlap < max_chars] (a negative overlap included) the cursor
    moves forward every turn, and the loop exits. *)
Lemma chunk_loop_returns fuel text n max_chars overlap start acc :
  overlap < max_chars → 0 ≤ start →
  Z.max 1 (n - start + 1) ≤ Z.of_nat fuel →
  ∃ chunks, chunk_loop fuel text n max_chars overlap start acc = Some chunks.
Proof.
  intros Hov. revert start acc.
  induction fuel as [|fuel IH]; intros start acc Hstart Hfuel; [lia|].
  simpl. destruct (Z.ltb_spec start n); [|eauto].
  destruct (Z.eqb_spec (Z.min (start + max_chars) n) n); [eauto|].
  apply IH; lia.
Qed.

(** A text that fits in one window is returned in the first turn. *)
Lemma chunk_loop_short fuel text n max_chars overlap acc :
  0 < n ≤ max_chars →
  ∃ chunks,
    chunk_loop (S fuel) text n max_chars overlap 0 acc = Some chunks.
Proof.
  intros Hn. simpl. destruct (Z.ltb_spec 0 n); [|lia].
  destruct (Z.eqb_spec (Z.min (0 + max_chars) n) n); [eauto|lia].
Qed.

(** X5: For [max_chars > 0] and a text that is not blank, the splitter returns
    exactly when [overlap < max_chars] or the trimmed text has at most
    [max_chars] characters: then one unit of fuel more than the text has
    characters is enough; otherwise no fuel is. *)
Theorem split_returns_iff (text : str) (max_chars overlap : Z) :
  0 < max_chars → strip text ≠ [] →
  (overlap < max_chars ∨ len (strip text) ≤ max_chars →
   ∃ chunks, ∀ fuel, (length (strip text) < fuel)%nat →
     split_into_chunks fuel text max_chars overlap = Some chunks)
  ∧ (max_chars ≤ overlap → max_chars < len (strip text) →
     ∀ fuel, split_into_chunks fuel text max_chars overlap = None).
Proof.
  intros Hmax Hne. split.
  - intros Hok.
    assert (Hrun : ∃ chunks,
      split_into_chunks (S (length (strip text))) text max_chars overlap
      = Some chunks).
    { unfold split_into_chunks.
      destruct (strip text) as [|c t] eqn:Et; [done|].
      assert (0 < len (c :: t)) by (unfold len; simpl; lia).
      destruct (Z_lt_dec overlap max_chars).
      - apply chunk_loop_returns; [done|lia|unfold len; lia].
      - apply chunk_loop_short. lia. }
    destruct Hrun as [chunks Hrun]. exists chunks. intros fuel Hfuel.
    apply (split_fuel_mono _ _ _ _ _ _ Hrun). lia.
  - intros Hov Hlong fuel. apply split_stalls; lia.
Qed.

Lemma split_returns_iff_witness :
  0 < 4
  ∧ strip (of_string "abcdefghij") ≠ []
  ∧ (-2 < 4 ∨ len (strip (of_string "abcdefghij")) ≤ 4)
  ∧ (∃ chunks, split_into_chunks 11 (of_string "abcdefghij") 4 (-2)
               = Some chunks)
  ∧ 4 ≤ 4 ∧ 4 < len (strip (of_string "abcdefghij"))
  ∧ split_into_chunks 1000 (of_string "abcdefghij") 4 4 = None.
Proof.
  assert (Hne : strip (of_string "abcdefghij") ≠ [])
    by (vm_compute; discriminate).
  assert (Hlong : 4 < len (strip (of_string "abcdefghij")))
    by (vm_compute; reflexivity).
  split; [lia|]. split; [exact Hne|]. split; [left; lia|]. split.
  { destruct (proj1 (split_returns_iff _ 4 (-2) eq_refl Hne)
                (or_introl eq_refl)) as [chunks Hrun].
    exists chunks. apply Hrun. vm_compute. lia. }
  split; [lia|]. split; [exact Hlong|].
  exact (proj2 (split_returns_iff _ 4 4 eq_refl Hne) (Z.le_refl 4) Hlong
           1000%nat).
Defined.

(** X6: Whitespace before and after the text changes nothing: the splitter
    gives the same answer, whatever the parameters. *)
Theorem split_ignores_surrounding_whitespace (pre text post : str)
    (max_chars overlap : Z) (fuel : nat) :
  Forall (λ c, isspace c = true) pre → Forall (λ c, isspace c = true) post →
  split_into_chunks fuel (pre ++ text ++ post) max_chars overlap
  = split_into_chunks fuel text max_chars overlap.
Proof.
  intros Hpre Hpost. unfold split_into_chunks.
  by rewrite (strip_pad _ _ _ Hpre Hpost).
Qed.

Lemma split_ignores_surrounding_whitespace_witness :
  Forall (λ c, isspace c = true) (of_string "  ")
  ∧ Forall (λ c, isspace c = true) [10%N; 9%N]
  ∧ split_into_chunks 5 (of_string "  " ++ of_string "a b c" ++ [10%N; 9%N])
      3 1
    = split_into_chunks 5 (of_string "a b c") 3 1.
Proof.
  assert (Hpre : Forall (λ c, isspace c = true) (of_string "  "))
    by (repeat constructor).
  assert (Hpost : Forall (λ c, isspace c = true) [10%N; 9%N])
    by (repeat constructor).
  split; [exact Hpre|]. split; [exact Hpost|].
  exact (split_ignores_surrounding_whitespace _ _ _ 3 1 5%nat Hpre Hpost).
Defined.

(** X7: The first chunk does not begin with whitespace and the last chunk does
    not end with it. *)
Theorem chunk_edges_not_blank (text : str) (max_chars overlap : Z) :
  strip text ≠ [] → 0 ≤ overlap < max_chars →
  ∃ chunks : list str,
    (∀ fuel, (length (strip text) ≤ fuel)%nat →
       split_into_chunks fuel text max_chars overlap = Some chunks)
    ∧ (∃ c0 ch, head chunks = Some c0 ∧ head c0 = Some ch
                ∧ isspace ch = false)
    ∧ (∃ cl ch, last chunks = Some cl ∧ last cl = Some ch
                ∧ isspace ch = false).
Proof.
  intros Hne Hov.
  destruct (split_windows text max_chars overlap Hne Hov) as (ws & Ht & Hrun).
  exists (window_text (strip text) <$> ws). split; [exact Hrun|].
  assert (Hlen : 0 < len (strip text)).
  { unfold len. destruct (strip text); [done|simpl; lia]. }
  split.
  - pose proof (tiling_head _ _ _ _ _ Ht) as Hh.
    destruct (strip text) as [|ch t] eqn:Et; [done|].
    exists (window_text (ch :: t) (0, Z.min (0 + max_chars) (len (ch :: t)))), ch.
    split; [|split; [|by apply (strip_head _ _ _ Et)]].
    + rewrite head_lookup, list_lookup_fmap, Hh. done.
    + unfold window_text. cbn [fst snd].
      destruct (py_slice_inside (ch :: t) 0
                  (Z.min (0 + max_chars) (len (ch :: t)))) as [-> _];
        [lia|lia|].
      change (Z.to_nat 0) with 0%nat. cbn [drop].
      destruct (Z.to_nat (Z.min (0 + max_chars) (len (ch :: t)) - 0))
        eqn:Hk; [lia|done].
  - destruct (tiling_last_end _ _ _ _ _ Ht) as [s Hl].
    pose proof (tiling_bounds _ _ _ Hov _ _ Ht) as Hb.
    rewrite Forall_lookup in Hb. rewrite last_lookup in Hl.
    pose proof (Hb _ _ Hl) as Hse. simpl in Hse.
    destruct (last (strip text)) as [ch|] eqn:Hlast;
      [|apply last_None in Hlast; done].
    exists (window_text (strip text) (s, len (strip text))), ch.
    split; [|split; [|by apply (strip_last _ _ Hlast)]].
    + by rewrite fmap_last, last_lookup, Hl.
    + unfold window_text. cbn [fst snd].
      destruct (py_slice_inside (strip text) s (len (strip text))) as [-> _];
        [lia|lia|].
      rewrite take_ge by (rewrite length_drop; unfold len; lia).
      rewrite last_lookup, lookup_drop, length_drop.
      rewrite last_lookup in Hlast. rewrite <- Hlast. f_equal.
      unfold len in *. lia.
Qed.

Lemma chunk_edges_not_blank_witness :
  strip (of_string "  hello world  ") ≠ []
  ∧ 0 ≤ 1 < 4
  ∧ ∃ chunks : list str,
      split_into_chunks 11 (of_string "  hello world  ") 4 1 = Some chunks
      ∧ ∃ cl ch, last chunks = Some cl ∧ last cl = Some ch
                 ∧ isspace ch = false.
Proof.
  assert (Hne : strip (of_string "  hello world  ") ≠ [])
    by (vm_compute; discriminate).
  assert (Hov : 0 ≤ 1 < 4) by lia.
  split; [exact Hne|]. split; [exact Hov|].
  destruct (chunk_edges_not_blank _ 4 1 Hne Hov) as (chunks & Hrun & _ & Hl).
  exists chunks. split; [apply Hrun; vm_compute; lia|exact Hl].
Defined.

(** A slice is a contiguous piece of the string, whatever the bounds. *)
Lemma py_slice_substring {A} (s : list A) (i j : Z) :
  ∃ pre post, s = pre ++ py_slice s i j ++ post.
Proof.
  unfold py_slice.
  exists (take (Z.to_nat (adjust_index (len s) i)) s),
    (drop (Z.to_nat (adjust_index (len s) j - adjust_index (len s) i))
       (drop (Z.to_nat (adjust_index (len s) i)) s)).
  by rewrite !take_drop.
Qed.

Lemma chunk_loop_substrings fuel (text : str) n max_chars overlap start acc
    chunks :
  Forall (λ c : str, ∃ pre post, text = pre ++ c ++ post) acc →
  chunk_loop fuel text n max_chars overlap start acc = Some chunks →
  Forall (λ c : str, ∃ pre post, text = pre ++ c ++ post) chunks.
Proof.
  revert start acc. induction fuel as [|fuel IH]; intros start acc Hacc Hrun;
    [done|].
  simpl in Hrun. destruct (start <? n); [|by simplify_eq].
  assert (Hadd : Forall (λ c : str, ∃ pre post, text = pre ++ c ++ post)
            (acc ++ [py_slice text start (Z.min (start + max_chars) n)])).
  { apply Forall_app. split; [done|]. constructor; [|done].
    apply py_slice_substring. }
  destruct (Z.min (start + max_chars) n =? n); [by simplify_eq|].
  by eapply IH.
Qed.

(** X8: Whatever the parameters, every chunk returned is a contiguous piece of
    the text given: nothing is added, reordered or rewritten. *)
Theorem chunks_are_substrings (text : str) (max_chars overlap : Z)
    (fuel : nat) (chunks : list str) :
  split_into_chunks fuel text max_chars overlap = Some chunks →
  Forall (λ c : str, ∃ pre post, text = pre ++ c ++ post) chunks.
Proof.
  unfold split_into_chunks.
  destruct (strip_decompose text) as (a & b & Htext & _ & _).
  destruct (strip text) as [|ch t] eqn:Et.
  - intros [= <-]. constructor.
  - intros Hrun.
    apply chunk_loop_substrings in Hrun; [|constructor].
    eapply Forall_impl; [exact Hrun|]. simpl.
    intros c (pre & post & Hc). exists (a ++ pre), (post ++ b).
    rewrite Htext, Hc. by rewrite <- !app_assoc.
Qed.

Lemma chunks_are_substrings_witness :
  split_into_chunks 3 (of_string " abcdef ") 4 1
  = Some [of_string "abcd"; of_string "def"]
  ∧ Forall (λ c : str, ∃ pre post, of_string " abcdef " = pre ++ c ++ post)
      [of_string "abcd"; of_string "def"].
Proof.
  assert (Hrun : split_into_chunks 3 (of_string " abcdef ") 4 1
                 = Some [of_string "abcd"; of_string "def"]) by reflexivity.
  split; [exact Hrun|].
  exact (chunks_are_substrings _ 4 1 3%nat _ Hrun).
Defined.

End SplitterMore.

(** ** More about ingestion *)

Module IngestMore.
Import Text TextFacts TextMore Splitter SplitterFacts World Ingest IngestFacts.

(** X9: [find_documents] keeps exactly the files whose suffix is registered, in
    walk order, each with its path and the text its loader returned; it
    returns a list exactly when every such file could be read. *)
Theorem find_documents_spec (files : list file) (docs : list (string * str)) :
  find_documents files = Ok docs
  ↔ Forall2 (λ f doc, doc.1 = f_path f ∧ f_read f = Some doc.2)
      (filter (λ f, f_suffix f ∈ LOADERS) files) docs.
Proof.
  revert docs. induction files as [|f files IH]; intros docs.
  - simpl. split.
    + intros [= <-]. constructor.
    + intros H. by inversion H.
  - simpl. destruct (decide (f_suffix f ∈ LOADERS)) as [Hin|Hout].
    + rewrite bool_decide_eq_true_2, filter_cons_True by done. split.
      * destruct (f_read f) as [text|] eqn:Hr; [|done].
        destruct (find_documents files) as [docs'|e] eqn:Hf; [|done].
        intros [= <-]. constructor; [done|]. by apply IH.
      * intros H. inversion H as [|? doc ? docs' [Hp Hr] Hrest]; subst.
        rewrite Hr. apply IH in Hrest. rewrite Hrest.
        destruct doc as [p t]; simpl in *. by subst p.
    + rewrite bool_decide_eq_false_2, filter_cons_False by done. apply IH.
Qed.

Lemma find_documents_spec_witness :
  find_documents (walk Scenarios.three_files)
  = Ok [("data/long.txt", replicate 1500 97%N);
        ("data/short.md", of_string "hello")]
  ∧ Forall2 (λ f doc, doc.1 = f_path f ∧ f_read f = Some doc.2)
      (filter (λ f, f_suffix f ∈ LOADERS) (walk Scenarios.three_files))
      [("data/long.txt", replicate 1500 97%N);
       ("data/short.md", of_string "hello")].
Proof.
  assert (Hfind : find_documents (walk Scenarios.three_files)
                  = Ok [("data/long.txt", replicate 1500 97%N);
                        ("data/short.md", of_string "hello")])
    by (vm_compute; reflexivity).
  split; [exact Hfind|].
  exact (proj1 (find_documents_spec _ _) Hfind).
Defined.

(** The first supported file whose loader raises ends the traversal. *)
Lemma find_documents_failure (pre : list file) (f : file) (post : list file) :
  Forall (λ g, f_suffix g ∈ LOADERS → is_Some (f_read g)) pre →
  f_suffix f ∈ LOADERS → f_read f = None →
  find_documents (pre ++ f :: post) = Raise (LoaderError (f_path f)).
Proof.
  intros Hpre Hin Hr. induction Hpre as [|g pre Hg _ IH]; simpl.
  - by rewrite bool_decide_eq_true_2, Hr.
  - rewrite IH. destruct (bool_decide_reflect (f_suffix g ∈ LOADERS)); [|done].
    by destruct (Hg ltac:(done)) as [text ->].
Qed.


Lemma main_run_failure (w : world) (e : exn) :
  data_dir_exists w = true → find_documents (walk w) = Raise e →
  main w = (Raise e, w).
Proof.
  intros Hdir Hfind. unfold main. rewrite bind_run. unfold get_world.
  cbv beta iota. by rewrite Hdir, Hfind.
Qed.

(** X10: When a supported file cannot be loaded, [main] raises the loader's
    error for the first such file in walk order and nothing else happens:
    no message, no call to the store, the index as it was. *)
Theorem loader_failure_aborts (w : world) (pre : list file) (f : file)
    (post : list file) :
  data_dir_exists w = true →
  walk w = pre ++ f :: post →
  Forall (λ g, f_suffix g ∈ LOADERS → is_Some (f_read g)) pre →
  f_suffix f ∈ LOADERS → f_read f = None →
  main w = (Raise (LoaderError (f_path f)), w).
Proof.
  intros Hdir Hwalk Hpre Hin Hr. apply main_run_failure; [done|].
  rewrite Hwalk. by apply find_documents_failure.
Qed.

Lemma loader_failure_aborts_witness :
  data_dir_exists Scenarios.unreadable_file = true
  ∧ main Scenarios.unreadable_file
    = (Raise (LoaderError "data/b.pdf"), Scenarios.unreadable_file).
Proof.
  split; [reflexivity|].
  refine (loader_failure_aborts Scenarios.unreadable_file
            [{| f_path := "data/a.txt"; f_suffix := ".txt";
                f_read := Some (of_string "first") |}]
            {| f_path := "data/b.pdf"; f_suffix := ".pdf"; f_read := None |}
            [{| f_path := "data/c.md"; f_suffix := ".md";
                f_read := Some (of_string "third") |}]
            eq_refl eq_refl _ _ eq_refl).
  - repeat constructor. intros _. by eexists.
  - apply (bool_decide_unpack _). vm_compute. exact I.
Defined.

(** *** What a rebuild stores *)

Lemma zip3_fst {A B C} (a : list A) (b : list B) (c : list C) :
  length b = length a → length c = length a →
  (λ t, t.1.1) <$> zip3 a b c = a.
Proof.
  revert b c. induction a as [|x a IH]; intros [|y b] [|z c] Hb Hc;
    simplify_eq/=; [done|]. f_equal. by apply IH.
Qed.

Lemma zip3_snd {A B C} (a : list A) (b : list B) (c : list C) :
  length b = length a → length c = length a →
  (λ t, t.1.2) <$> zip3 a b c = b.
Proof.
  revert b c. induction a as [|x a IH]; intros [|y b] [|z c] Hb Hc;
    simplify_eq/=; [done|]. f_equal. by apply IH.
Qed.

Lemma zip3_thd {A B C} (a : list A) (b : list B) (c : list C) :
  length b = length a → length c = length a →
  (λ t, t.2) <$> zip3 a b c = c.
Proof.
  revert b c. induction a as [|x a IH]; intros [|y b] [|z c] Hb Hc;
    simplify_eq/=; [done|]. f_equal. by apply IH.
Qed.

(** The chunk lists of the documents are determined by the documents. *)
Lemma chunk_lists_unique (docs : list (string * str)) (a b : list (list str)) :
  Forall2 (λ doc chunks,
    split_into_chunks (S (length doc.2)) doc.2 800 200 = Some chunks) docs a →
  Forall2 (λ doc chunks,
    split_into_chunks (S (length doc.2)) doc.2 800 200 = Some chunks) docs b →
  a = b.
Proof.
  intros Ha. revert b. induction Ha as [|doc chunks docs a Hs _ IH];
    intros b Hb; inversion Hb; subst; [done|].
  f_equal; [congruence|by apply IH].
Qed.

(** The identifiers of the inner loop are consecutive draws. *)
Lemma add_chunks_ids (path : string) (chunks : list str) :
  ∀ (i : Z) (b b' : batch) (w w' : world),
  for_each (add_chunk path) (enumerate_from i chunks) b w = (Ok b', w') →
  all_ids b'
  = all_ids b ++ (uuid_source w <$> seq (uuid_drawn w) (length chunks)).
Proof.
  induction chunks as [|c chunks IH]; intros i b b' w w' Hrun.
  - simpl in Hrun. injection Hrun as <- _. simpl. by rewrite app_nil_r.
  - simpl enumerate_from in Hrun.
    rewrite for_each_cons, add_chunk_run in Hrun.
    apply IH in Hrun. rewrite Hrun. cbn [all_ids drawn uuid_source uuid_drawn].
    rewrite <- app_assoc. done.
Qed.

Lemma process_documents_ids (docs : list (string * str)) :
  ∀ (b b' : batch) (w w' : world),
  for_each process_document docs b w = (Ok b', w') →
  ∃ k : nat,
    all_ids b' = all_ids b ++ (uuid_source w <$> seq (uuid_drawn w) k)
    ∧ w' = drawn k w.
Proof.
  induction docs as [|doc docs IH]; intros b b' w w' Hrun.
  - simpl in Hrun. injection Hrun as <- <-. exists 0%nat.
    simpl. by rewrite app_nil_r, drawn_0.
  - rewrite for_each_cons in Hrun.
    destruct (process_document_run b doc w) as (chunks & ids & Hs & Hlen & Hdoc).
    assert (Hids : ids = uuid_source w <$> seq (uuid_drawn w) (length chunks)).
    { pose proof Hdoc as Hdoc'. unfold process_document in Hdoc'.
      rewrite Hs in Hdoc'. apply add_chunks_ids in Hdoc'.
      simpl in Hdoc'. by apply app_inv_head in Hdoc'. }
    rewrite Hdoc in Hrun. apply IH in Hrun. destruct Hrun as (k & Hk & ->).
    exists (length chunks + k)%nat. split.
    + rewrite Hk. cbn [all_ids drawn uuid_source uuid_drawn].
      rewrite Hlen, Hids, <- app_assoc, seq_app, fmap_app.
      by rewrite (Nat.add_comm (length chunks) (uuid_drawn w)).
    + rewrite drawn_drawn, Hlen. f_equal. lia.
Qed.

(** A run of [main] that finds documents, with the identifiers it
    draws. *)
Lemma main_rebuild_content (w : world) (d : string * str)
    (docs : list (string * str)) :
  data_dir_exists w = true →
  find_documents (walk w) = Ok (d :: docs) →
  ∃ chunkss : list (list str),
    Forall2 (λ doc chunks,
      split_into_chunks (S (length doc.2)) doc.2 800 200 = Some chunks)
      (d :: docs) chunkss
    ∧ let ids := uuid_source w
                   <$> seq (uuid_drawn w) (length (concat chunkss)) in
      let metas :=
        concat (zip_with
          (λ doc chunks,
             imap (λ k _, chunk_metadata doc.1 (Z.of_nat k)) chunks)
          (d :: docs) chunkss) in
      let accepted :=
        ((0 <? len (concat chunkss))%Z
         && (len (concat chunkss) <=? max_batch_size)%Z) in
      main w
      = (if accepted then Ok tt else Raise ValueError,
         {| data_dir_exists := true; walk := walk w;
            store := <[COLLECTION_NAME :=
                        if accepted
                        then make_record <$> zip3 ids (concat chunkss) metas
                        else []]> (store w);
            calls := calls w
              ++ [DeleteCollection COLLECTION_NAME;
                  CreateCollection COLLECTION_NAME;
                  Add COLLECTION_NAME ids (concat chunkss) metas];
            stdout := stdout w
              ++ [MsgFound (len (d :: docs)); MsgAdding (len (concat chunkss))]
              ++ (if accepted then [MsgDone] else []);
            uuid_source := uuid_source w;
            uuid_drawn := length (concat chunkss) + uuid_drawn w |}).
Proof.
  intros Hdir Hfind.
  set (w1 := put_line (MsgFound (len (d :: docs))) w).
  set (w2 := set_store (delete COLLECTION_NAME (store w1))
               (log_call (DeleteCollection COLLECTION_NAME) w1)).
  set (w3 := set_store (<[COLLECTION_NAME := []]> (store w2))
               (log_call (CreateCollection COLLECTION_NAME) w2)).
  destruct (process_documents_run (d :: docs) empty_batch w3)
    as (chunkss & ids & Hall & Hlen & Hrun).
  destruct (process_documents_ids _ _ _ _ _ Hrun) as (k & Hids & Hw).
  cbn [all_ids empty_batch app] in Hids.
  assert (Hk : k = length (concat chunkss)).
  { rewrite <- Hlen, Hids, length_fmap, length_seq. done. }
  subst k. change (uuid_source w3) with (uuid_source w) in Hids.
  change (uuid_drawn w3) with (uuid_drawn w) in Hids.
  exists chunkss. split; [done|]. cbv zeta.
  rewrite (main_after_loops w d docs _ _ Hdir Hfind Hrun).
  cbn [all_ids all_chunks all_metadata empty_batch app].
  rewrite batch_accepted_aligned;
    [|done|by rewrite (metadata_length _ _ (Forall2_length _ _ _ Hall))].
  assert (Hl : len ids = len (concat chunkss))
    by (unfold len; by rewrite Hlen).
  rewrite Hl, Hlen. by rewrite Hids.
Qed.

Lemma sample_uuid_inj : Inj (=) (=) Scenarios.sample_uuid.
Proof.
  intros a. induction a as [|a IH]; intros [|b] Hab; try done.
  simpl in Hab. injection Hab as Hab. f_equal. by apply IH.
Qed.




Lemma record_documents (ids : list string) (documents : list str)
    (metas : list (gmap string value)) :
  length documents = length ids → length metas = length ids →
  rec_id <$> (make_record <$> zip3 ids documents metas) = ids
  ∧ rec_document <$> (make_record <$> zip3 ids documents metas) = documents
  ∧ rec_metadata <$> (make_record <$> zip3 ids documents metas) = metas.
Proof.
  intros Hd Hm. rewrite <- !list_fmap_compose. repeat split.
  - exact (zip3_fst ids documents metas Hd Hm).
  - exact (zip3_snd ids documents metas Hd Hm).
  - exact (zip3_thd ids documents metas Hd Hm).
Qed.



(** X13: What ends up in the collection depends on the files found and on
    nothing else: two runs over the same files, whatever the store held and
    whatever was printed or drawn before, store the same documents with the
    same metadata (so a second run over unchanged files replaces the index
    by an equal one, up to the identifiers). *)
Theorem rebuild_depends_only_on_files (w1 w2 : world) (d : string * str)
    (docs : list (string * str)) :
  data_dir_exists w1 = true → data_dir_exists w2 = true →
  walk w2 = walk w1 →
  find_documents (walk w1) = Ok (d :: docs) →
  ∃ records1 records2 : list record,
    store (main w1).2 !! COLLECTION_NAME = Some records1
    ∧ store (main w2).2 !! COLLECTION_NAME = Some records2
    ∧ rec_document <$> records1 = rec_document <$> records2
    ∧ rec_metadata <$> records1 = rec_metadata <$> records2.
Proof.
  intros Hdir1 Hdir2 Hwalk Hfind1.
  assert (Hfind2 : find_documents (walk w2) = Ok (d :: docs))
    by (by rewrite Hwalk).
  destruct (main_rebuild_content w1 d docs Hdir1 Hfind1) as (c1 & Hall1 & Hrun1).
  destruct (main_rebuild_content w2 d docs Hdir2 Hfind2) as (c2 & Hall2 & Hrun2).
  pose proof (chunk_lists_unique _ _ _ Hall1 Hall2) as <-.
  cbv zeta in Hrun1, Hrun2. rewrite Hrun1, Hrun2. cbn [snd store].
  eexists _, _. split; [apply lookup_insert_eq|].
  split; [apply lookup_insert_eq|].
  destruct ((0 <? len (concat c1))%Z && (len (concat c1) <=? max_batch_size)%Z);
    [|done].
  pose proof (metadata_length _ _ (Forall2_length _ _ _ Hall1)) as Hm.
  destruct (record_documents
    (uuid_source w1 <$> seq (uuid_drawn w1) (length (concat c1)))
    (concat c1)
    (concat (zip_with
       (λ doc chunks, imap (λ k _, chunk_metadata doc.1 (Z.of_nat k)) chunks)
       (d :: docs) c1))) as (_ & -> & ->);
    [by rewrite length_fmap, length_seq..|].
  destruct (record_documents
    (uuid_source w2 <$> seq (uuid_drawn w2) (length (concat c1)))
    (concat c1)
    (concat (zip_with
       (λ doc chunks, imap (λ k _, chunk_metadata doc.1 (Z.of_nat k)) chunks)
       (d :: docs) c1))) as (_ & -> & ->);
    [by rewrite length_fmap, length_seq..|].
  done.
Qed.

(** Ingesting twice. *)
Lemma rebuild_depends_only_on_files_witness :
  data_dir_exists Scenarios.three_files = true
  ∧ data_dir_exists (main Scenarios.three_files).2 = true
  ∧ walk (main Scenarios.three_files).2 = walk Scenarios.three_files
  ∧ ∃ records1 records2 : list record,
      store (main Scenarios.three_files).2 !! COLLECTION_NAME = Some records1
      ∧ store (main (main Scenarios.three_files).2).2 !! COLLECTION_NAME
        = Some records2
      ∧ rec_document <$> records1 = rec_document <$> records2.
Proof.
  assert (Hdir : data_dir_exists Scenarios.three_files = true) by reflexivity.
  assert (Hdir2 : data_dir_exists (main Scenarios.three_files).2 = true)
    by (vm_compute; reflexivity).
  assert (Hwalk : walk (main Scenarios.three_files).2
                  = walk Scenarios.three_files) by (vm_compute; reflexivity).
  assert (Hfind : find_documents (walk Scenarios.three_files)
                  = Ok [("data/long.txt", replicate 1500 97%N);
                        ("data/short.md", of_string "hello")])
    by (vm_compute; reflexivity).
  split; [exact Hdir|]. split; [exact Hdir2|]. split; [exact Hwalk|].
  destruct (rebuild_depends_only_on_files _ _ _ _ Hdir Hdir2 Hwalk Hfind)
    as (r1 & r2 & H1 & H2 & Hd & _).
  exists r1, r2. split; [exact H1|]. split; [exact H2|exact Hd].
Defined.

(** X14: when the identifier source never repeats itself, the ids of the
    batch a run of [main] hands to the store are pairwise distinct: they
    are the next draws of the source, one per chunk; the number of draws
    advances by the number of ids, and the records of the collection after
    the run have pairwise distinct ids. *)
Theorem chunk_ids_distinct (w : world) (d : string * str)
    (docs : list (string * str)) :
  data_dir_exists w = true →
  find_documents (walk w) = Ok (d :: docs) →
  Inj (=) (=) (uuid_source w) →
  ∃ (ids : list string) (documents : list str)
    (metas : list (gmap string value)),
    calls (main w).2
    = calls w ++ [DeleteCollection COLLECTION_NAME;
                  CreateCollection COLLECTION_NAME;
                  Add COLLECTION_NAME ids documents metas]
    ∧ length ids = length documents
    ∧ ids = uuid_source w <$> seq (uuid_drawn w) (length ids)
    ∧ NoDup ids
    ∧ uuid_drawn (main w).2 = (length ids + uuid_drawn w)%nat
    ∧ ∃ records, store (main w).2 !! COLLECTION_NAME = Some records
                 ∧ NoDup (rec_id <$> records).
Proof.
  intros Hdir Hfind Hinj.
  destruct (main_rebuild_content w d docs Hdir Hfind) as (chunkss & Hall & Hrun).
  cbv zeta in Hrun. rewrite Hrun. cbn [snd store calls uuid_drawn].
  pose proof (metadata_length _ _ (Forall2_length _ _ _ Hall)) as Hm.
  assert (Hnd : NoDup (uuid_source w
                         <$> seq (uuid_drawn w) (length (concat chunkss))))
    by (apply NoDup_fmap_2; [done|apply NoDup_seq]).
  eexists _, _, _. split; [done|].
  rewrite length_fmap, length_seq. split; [done|]. split; [done|].
  split; [done|]. split; [done|].
  eexists. split; [apply lookup_insert_eq|].
  destruct ((0 <? len (concat chunkss))%Z
            && (len (concat chunkss) <=? max_batch_size)%Z);
    [|constructor].
  destruct (record_documents
    (uuid_source w <$> seq (uuid_drawn w) (length (concat chunkss)))
    (concat chunkss)
    (concat (zip_with
       (λ doc chunks, imap (λ k _, chunk_metadata doc.1 (Z.of_nat k)) chunks)
       (d :: docs) chunkss))) as (-> & _ & _);
    [by rewrite length_fmap, length_seq..|done].
Qed.

Lemma chunk_ids_distinct_witness :
  data_dir_exists Scenarios.three_files = true
  ∧ find_documents (walk Scenarios.three_files)
    = Ok [("data/long.txt", replicate 1500 97%N);
          ("data/short.md", of_string "hello")]
  ∧ Inj (=) (=) (uuid_source Scenarios.three_files)
  ∧ ∃ (ids : list string) (documents : list str)
      (metas : list (gmap string value)),
      calls (main Scenarios.three_files).2
      = [DeleteCollection COLLECTION_NAME; CreateCollection COLLECTION_NAME;
         Add COLLECTION_NAME ids documents metas]
      ∧ NoDup ids.
Proof.
  assert (Hdir : data_dir_exists Scenarios.three_files = true) by reflexivity.
  assert (Hfind : find_documents (walk Scenarios.three_files)
                  = Ok [("data/long.txt", replicate 1500 97%N);
                        ("data/short.md", of_string "hello")])
    by (vm_compute; reflexivity).
  assert (Hinj : Inj (=) (=) (uuid_source Scenarios.three_files))
    by exact sample_uuid_inj.
  split; [exact Hdir|]. split; [exact Hfind|]. split; [exact Hinj|].
  destruct (chunk_ids_distinct _ _ _ Hdir Hfind Hinj)
    as (ids & documents & metas & Hcalls & _ & _ & Hnd & _).
  exists ids, documents, metas. split; [exact Hcalls|exact Hnd].
Defined.

(** With the default parameters every chunk has between 1 and 800
    characters. *)
Lemma default_chunks_sized (text : str) (chunks : list str) :
  split_into_chunks (S (length text)) text 800 200 = Some chunks →
  Forall (λ c : str, (0 < len c ≤ 800)%Z) chunks.
Proof.
  intros Hrun. destruct (decide (strip text = [])) as [He|Hne].
  - unfold split_into_chunks in Hrun. rewrite He in Hrun.
    injection Hrun as <-. constructor.
  - destruct (split_windows text 800 200 Hne) as (ws & Ht & Hws); [lia|].
    rewrite Hws in Hrun by (pose proof (strip_length text); lia).
    injection Hrun as <-. apply Forall_fmap.
    eapply Forall_impl;
      [exact (tiling_bounds _ 800%Z 200%Z ltac:(lia) _ _ Ht)|].
    intros [s e]; simpl. intros (Hs & He & Hmax). unfold window_text; simpl.
    destruct (py_slice_inside (strip text) s e) as [_ ->]; lia.
Qed.

Lemma zip3_Forall {A B C} (R : B → C → Prop) (a : list A) (b : list B)
    (c : list C) :
  Forall2 R b c → Forall (λ t, R t.1.2 t.2) (zip3 a b c).
Proof.
  intros H. revert a. induction H as [|y z b c Hyz _ IH]; intros [|x a];
    simpl; constructor; [done|apply IH].
Qed.

(** Chunk by chunk, the batch pairs each chunk with the dict of its own
    document and position. *)
Lemma batch_related (docs : list (string * str)) (chunkss : list (list str)) :
  Forall2 (λ doc chunks,
    split_into_chunks (S (length doc.2)) doc.2 800 200 = Some chunks)
    docs chunkss →
  Forall2 (λ (c : str) (m : gmap string value),
      (0 < len c ≤ 800)%Z
      ∧ ∃ doc chunks (k : nat),
          doc ∈ docs
          ∧ split_into_chunks (S (length doc.2)) doc.2 800 200 = Some chunks
          ∧ chunks !! k = Some c
          ∧ m = chunk_metadata doc.1 (Z.of_nat k))
    (concat chunkss)
    (concat (zip_with
       (λ doc chunks, imap (λ k _, chunk_metadata doc.1 (Z.of_nat k)) chunks)
       docs chunkss)).
Proof.
  induction 1 as [|doc chunks docs chunkss Hs _ IH]; simpl; [constructor|].
  apply Forall2_app.
  - apply Forall2_same_length_lookup_2; [by rewrite length_imap|].
    intros k c m Hc Hm. rewrite list_lookup_imap, Hc in Hm. simplify_eq/=.
    split.
    + pose proof (default_chunks_sized _ _ Hs) as Hsz.
      rewrite Forall_lookup in Hsz. by apply (Hsz k).
    + exists doc, chunks, k. split; [by left|done].
  - eapply Forall2_impl; [exact IH|]. simpl.
    intros c m (Hsz & doc' & chunks' & k & Hin & ?).
    split; [done|]. exists doc', chunks', k. split; [by right|done].
Qed.

(** X15: Every record of a rebuilt collection is a chunk of one of the found
    documents: its text has between 1 and 800 characters and is the chunk
    at the position its [chunk_index] names in the document its [source]
    names. *)
Theorem stored_records_wellformed (w : world) (d : string * str)
    (docs : list (string * str)) :
  data_dir_exists w = true →
  find_documents (walk w) = Ok (d :: docs) →
  ∃ records : list record,
    store (main w).2 !! COLLECTION_NAME = Some records
    ∧ Forall (λ r,
        (0 < len (rec_document r) ≤ 800)%Z
        ∧ ∃ doc chunks (k : nat),
            doc ∈ d :: docs
            ∧ split_into_chunks (S (length doc.2)) doc.2 800 200 = Some chunks
            ∧ chunks !! k = Some (rec_document r)
            ∧ rec_metadata r = chunk_metadata doc.1 (Z.of_nat k)) records.
Proof.
  intros Hdir Hfind.
  destruct (main_rebuild_content w d docs Hdir Hfind) as (chunkss & Hall & Hrun).
  cbv zeta in Hrun. rewrite Hrun. cbn [snd store].
  eexists. split; [apply lookup_insert_eq|].
  destruct ((0 <? len (concat chunkss))%Z
            && (len (concat chunkss) <=? max_batch_size)%Z);
    [|constructor].
  apply Forall_fmap.
  exact (zip3_Forall _ _ _ _ (batch_related _ _ Hall)).
Qed.

Lemma stored_records_wellformed_witness :
  data_dir_exists Scenarios.three_files = true
  ∧ find_documents (walk Scenarios.three_files)
    = Ok [("data/long.txt", replicate 1500 97%N);
          ("data/short.md", of_string "hello")]
  ∧ ∃ records : list record,
      store (main Scenarios.three_files).2 !! COLLECTION_NAME = Some records
      ∧ Forall (λ r, (0 < len (rec_document r) ≤ 800)%Z) records.
Proof.
  assert (Hdir : data_dir_exists Scenarios.three_files = true) by reflexivity.
  assert (Hfind : find_documents (walk Scenarios.three_files)
                  = Ok [("data/long.txt", replicate 1500 97%N);
                        ("data/short.md", of_string "hello")])
    by (vm_compute; reflexivity).
  split; [exact Hdir|]. split; [exact Hfind|].
  destruct (stored_records_wellformed _ _ _ Hdir Hfind) as (records & Hst & Hwf).
  exists records. split; [exact Hst|].
  exact (Forall_impl _ _ _ Hwf (λ r H, proj1 H)).
Defined.

(** The ways a run of [main] can go. *)
Lemma main_cases (w : world) :
  (∃ msg, main w = (Ok tt, put_line msg w))
  ∨ (∃ e, main w = (Raise e, w))
  ∨ (∃ d docs, data_dir_exists w = true
               ∧ find_documents (walk w) = Ok (d :: docs)).
Proof.
  destruct (data_dir_exists w) eqn:Hdir.
  - destruct (find_documents (walk w)) as [[|d docs]|e] eqn:Hfind.
    + left. exists MsgNoFiles. unfold main. rewrite bind_run.
      unfold get_world. cbv beta iota. by rewrite Hdir, Hfind.
    + right. right. eauto.
    + right. left. exists e. by apply main_run_failure.
  - left. destruct (main_nothing_found w (or_introl Hdir)) as (msg & _ & Hrun).
    eauto.
Qed.

(** X16: [main] reads and writes the collection "notes" only: every other
    collection of the store is after the run what it was before. *)
Theorem other_collections_untouched (w : world) (name : string) :
  name ≠ COLLECTION_NAME →
  store (main w).2 !! name = store w !! name.
Proof.
  intros Hname.
  destruct (main_cases w) as [[msg ->]|[[e ->]|(d & docs & Hdir & Hfind)]];
    [done|done|].
  destruct (main_rebuild w d docs Hdir Hfind) as (? & ? & _ & _ & Hrun).
  cbv zeta in Hrun. rewrite Hrun. cbn [snd store].
  by rewrite lookup_insert_ne.
Qed.

Lemma other_collections_untouched_witness :
  "archive" ≠ COLLECTION_NAME
  ∧ store Scenarios.with_archive !! "archive"
    = Some [Scenarios.old_record; Scenarios.old_record]
  ∧ store (main Scenarios.with_archive).2 !! "archive"
    = store Scenarios.with_archive !! "archive".
Proof.
  assert (Hname : "archive" ≠ COLLECTION_NAME) by discriminate.
  split; [exact Hname|]. split; [reflexivity|].
  exact (other_collections_untouched Scenarios.with_archive "archive" Hname).
Defined.

End IngestMore.

(** ** The PDF loader *)

Module LoadersMore.
Import Text TextFacts Splitter Loaders.

Lemma join_app (sep : str) (a b : list str) :
  a ≠ [] → b ≠ [] → join sep (a ++ b) = join sep a ++ sep ++ join sep b.
Proof.
  intros Ha Hb. induction a as [|x a IH]; [done|].
  destruct a as [|y a].
  - destruct b; [done|]. done.
  - change (join sep ((x :: y :: a) ++ b))
      with (x ++ sep ++ join sep ((y :: a) ++ b)).
    rewrite IH by done. change (join sep (x :: y :: a))
      with (x ++ sep ++ join sep (y :: a)).
    by rewrite <- !app_assoc.
Qed.

Lemma join_Forall (P : N → Prop) (sep : str) (parts : list str) :
  Forall P sep → Forall (Forall P) parts → Forall P (join sep parts).
Proof.
  intros Hsep. induction 1 as [|x parts Hx Hparts IH]; [constructor|].
  destruct parts as [|y parts]; [done|].
  change (join sep (x :: y :: parts)) with (x ++ sep ++ join sep (y :: parts)).
  apply Forall_app. split; [done|]. apply Forall_app. by split.
Qed.

(** X17: the text of a PDF without pages is empty, the text of a PDF of
    one page is the text of that page (empty when the page has none), and
    the text of a PDF is the text of its first pages, a newline, and the
    text of its remaining pages, wherever the pages are divided: the pages'
    texts in page order, one newline between two pages. *)
Theorem pdf_pages_in_order :
  load_pdf [] = []
  ∧ (∀ t : str, load_pdf [Some t] = t)
  ∧ load_pdf [None] = []
  ∧ (∀ pages1 pages2 : list (option str),
       pages1 ≠ [] → pages2 ≠ [] →
       load_pdf (pages1 ++ pages2)
       = load_pdf pages1 ++ [10%N] ++ load_pdf pages2).
Proof.
  split; [done|]. split; [by intros [|c t]|]. split; [done|].
  intros pages1 pages2 H1 H2. unfold load_pdf. cbv zeta. rewrite fmap_app.
  apply join_app; by destruct pages1, pages2.
Qed.

Lemma pdf_pages_in_order_witness :
  [Some (of_string "one"); None] ≠ []
  ∧ [Some (of_string "three")] ≠ []
  ∧ load_pdf ([Some (of_string "one"); None] ++ [Some (of_string "three")])
    = load_pdf [Some (of_string "one"); None] ++ [10%N]
      ++ load_pdf [Some (of_string "three")]
  ∧ load_pdf [Some (of_string "one"); None; Some (of_string "three")]
    = of_string "one" ++ [10; 10]%N ++ of_string "three".
Proof.
  assert (H1 : [Some (of_string "one"); None] ≠ []) by discriminate.
  assert (H2 : [Some (of_string "three")] ≠ []) by discriminate.
  split; [exact H1|]. split; [exact H2|].
  split; [|reflexivity].
  exact (proj2 (proj2 (proj2 pdf_pages_in_order)) _ _ H1 H2).
Defined.

(** X18: A PDF none of whose pages has text other than whitespace (a scanned
    document, say) loads as a blank text and gives no chunk. *)
Theorem blank_pdf_no_chunks (pages : list (option str))
    (max_chars overlap : Z) (fuel : nat) :
  Forall (λ page,
    ∀ t, page = Some t → Forall (λ c, isspace c = true) t) pages →
  Forall (λ c, isspace c = true) (load_pdf pages)
  ∧ split_into_chunks fuel (load_pdf pages) max_chars overlap = Some [].
Proof.
  intros Hpages.
  assert (Hblank : Forall (λ c, isspace c = true) (load_pdf pages)).
  { unfold load_pdf. cbv zeta. apply join_Forall; [by repeat constructor|].
    apply Forall_fmap. eapply Forall_impl; [exact Hpages|].
    intros [[|c t]|] Ht; simpl; [done| |done]. by apply Ht. }
  split; [done|]. unfold split_into_chunks.
  by rewrite (strip_whitespace _ Hblank).
Qed.

Lemma blank_pdf_no_chunks_witness :
  Forall (λ page : option str,
    ∀ t, page = Some t → Forall (λ c, isspace c = true) t)
    [None; Some []; Some (of_string "  ")]
  ∧ load_pdf [None; Some []; Some (of_string "  ")] = [10; 10; 32; 32]%N
  ∧ split_into_chunks 5 (load_pdf [None; Some []; Some (of_string "  ")])
      800 200 = Some [].
Proof.
  assert (Hpages : Forall (λ page : option str,
            ∀ t, page = Some t → Forall (λ c, isspace c = true) t)
            [None; Some []; Some (of_string "  ")]).
  { repeat constructor; intros t Ht; simplify_eq; repeat constructor. }
  split; [exact Hpages|]. split; [reflexivity|].
  exact (proj2 (blank_pdf_no_chunks _ 800 200 5%nat Hpages)).
Defined.

End LoadersMore.

(** ** More about search, and the answer layer *)

Module SearchMore.
Import Text World Search SearchFacts.

Lemma zip3_length_min {A B C} (a : list A) (b : list B) (c : list C) :
  length (zip3 a b c) = length a `min` (length b `min` length c).
Proof.
  revert b c. induction a as [|x a IH]; intros [|y b] [|z c]; simpl;
    try done; try lia. by rewrite IH.
Qed.

Lemma zip3_fst_take {A B C} (a : list A) (b : list B) (c : list C) :
  (λ t, t.1.1) <$> zip3 a b c = take (length (zip3 a b c)) a.
Proof.
  revert b c. induction a as [|x a IH]; intros [|y b] [|z c]; simpl;
    try done. by rewrite IH.
Qed.

Section Facts.
Context (float : Type) (query_store : list record → str → Z → reply float).

(** X19: When the arrays of the reply differ in length, [search] returns as many
    hits as the shortest of them has entries (an absent "distances" array
    counts as one as long as the documents), and the hits carry the first
    documents in order. *)
Theorem search_truncates (st : gmap string (list record))
    (coll : list record) (query : str) (n_results : Z)
    (docs : list str) (rest_docs : list (list str))
    (metas : list (gmap string value))
    (rest_metas : list (list (gmap string value))) :
  let results := query_store coll query n_results in
  st !! "notes" = Some coll →
  documents float results = docs :: rest_docs →
  metadatas float results = metas :: rest_metas →
  (distances float results = None →
   ∃ hits, search float query_store st query n_results = Ok hits
     ∧ length hits = length docs `min` length metas
     ∧ text float <$> hits = take (length hits) docs)
  ∧ (∀ dists rest, distances float results = Some (dists :: rest) →
     ∃ hits, search float query_store st query n_results = Ok hits
       ∧ length hits = length docs `min` (length metas `min` length dists)
       ∧ text float <$> hits = take (length hits) docs).
Proof.
  intros results Hst Hdocs Hmetas.
  assert (Hrun : ∀ ds rest,
    match distances float results with
    | Some d => fmap (M := list) Some <$> d
    | None => [replicate (length docs) None]
    end = ds :: rest →
    ∃ hits, search float query_store st query n_results = Ok hits
      ∧ length hits = length docs `min` (length metas `min` length ds)
      ∧ text float <$> hits = take (length hits) docs).
  { intros ds rest Hds. exists (make_hit float <$> zip3 docs metas ds).
    split; [|split].
    - unfold search, get_collection, get_collection_of, COLLECTION_NAME.
      rewrite Hst. fold results. rewrite Hdocs, Hmetas. simpl first.
      cbv beta iota. by rewrite Hds.
    - by rewrite length_fmap, zip3_length_min.
    - rewrite <- list_fmap_compose, length_fmap.
      exact (zip3_fst_take docs metas ds). }
  split.
  - intros Hn. rewrite Hn in Hrun.
    destruct (Hrun _ _ eq_refl) as (hits & Hs & Hl & Ht).
    exists hits. rewrite length_replicate in Hl. split; [done|].
    split; [lia|done].
  - intros dists rest Hs. rewrite Hs in Hrun.
    destruct (Hrun _ _ eq_refl) as (hits & Hr & Hl & Ht).
    exists hits. rewrite length_fmap in Hl. done.
Qed.

(** X20: [search] fails with "collection not found" exactly when the
    store has no collection "notes", whatever the query and the number of
    results asked for; the name in the exception is "notes". *)
Theorem search_not_found_iff (st : gmap string (list record)) (query : str)
    (n_results : Z) (name : string) :
  search float query_store st query n_results
  = Raise (CollectionNotFound name)
  ↔ st !! "notes" = None ∧ name = "notes".
Proof.
  unfold search, get_collection, get_collection_of, COLLECTION_NAME.
  destruct (st !! "notes") as [coll|] eqn:Hst.
  - split; [|by intros [? _]].
    destruct (documents float _) as [|docs rd]; simpl; [done|].
    destruct (metadatas float _) as [|metas rm]; simpl; [done|].
    by destruct (distances float _) as [[|ds rest]|].
  - split.
    + by intros [= <-].
    + by intros [_ ->].
Qed.

End Facts.

Lemma search_truncates_witness :
  ({[ "notes" := [Scenarios.old_record] ]} : gmap string (list record))
    !! "notes" = Some [Scenarios.old_record]
  ∧ ∃ hits : list (hit Z),
      search Z Scenarios.ragged_reply {[ "notes" := [Scenarios.old_record] ]}
        (of_string "anything") 5 = Ok hits
      ∧ length hits = (3 `min` (2 `min` 1))%nat
      ∧ text Z <$> hits = take (length hits)
          [of_string "first"; of_string "second"; of_string "third"].
Proof.
  assert (Hst : ({[ "notes" := [Scenarios.old_record] ]}
                   : gmap string (list record)) !! "notes"
                = Some [Scenarios.old_record]) by reflexivity.
  split; [exact Hst|].
  exact (proj2 (search_truncates Z Scenarios.ragged_reply _ _
                  (of_string "anything") 5%Z _ [] _ [] Hst eq_refl eq_refl)
           [7%Z] [] eq_refl).
Defined.

Lemma search_not_found_iff_witness :
  search Z Scenarios.two_matches ∅ (of_string "anything") 0
  = Raise (CollectionNotFound "notes")
  ∧ (∅ : gmap string (list record)) !! "notes" = None.
Proof.
  assert (Hrun : search Z Scenarios.two_matches ∅ (of_string "anything") 0
                 = Raise (CollectionNotFound "notes")) by reflexivity.
  split; [exact Hrun|].
  exact (proj1 (proj1 (search_not_found_iff Z Scenarios.two_matches _ _ _ _)
                  Hrun)).
Defined.

End SearchMore.

(** ** Ingestion, search and answer together *)

Module PipelineMore.
Import Text World.

Section Facts.
Context (float : Type)
        (query_store : list record → str → Z → Search.reply float).

(** X21: after a run of [main] that found documents, the store has the
    collection "notes" and [get_collection] returns it, whether the store
    took the batch of that run or refused it. *)
Theorem search_after_rebuild (w : world) (d : string * str)
    (docs : list (string * str)) :
  data_dir_exists w = true →
  Ingest.find_documents (walk w) = Ok (d :: docs) →
  ∃ records,
    store (Ingest.main w).2 !! "notes" = Some records
    ∧ Search.get_collection (store (Ingest.main w).2) = Ok records.
Proof.
  intros Hdir Hfind.
  destruct (IngestFacts.main_rebuild w d docs Hdir Hfind)
    as (chunkss & ids & _ & _ & Hrun).
  cbv zeta in Hrun. rewrite Hrun. cbn [snd store].
  match goal with |- context [<[_ := ?r]> (store w)] => set (records := r) end.
  assert (Hst : (<[Ingest.COLLECTION_NAME := records]> (store w)
                   : gmap string (list record)) !! "notes" = Some records)
    by apply lookup_insert_eq.
  exists records. split; [exact Hst|].
  unfold Search.get_collection, get_collection_of, Search.COLLECTION_NAME.
  by rewrite Hst.
Qed.

Context (dedent : str → str) (chat_error : Type)
        (chat : string → str → chat_error + str).

(** X22: Asking a question before anything was ingested fails with the
    store's "collection not found", whatever the chat model would have
    said. *)
Theorem answer_before_ingest (st : gmap string (list record))
    (question : str) (n_context_chunks : Z) (model_name : string) :
  st !! "notes" = None →
  Answer.answer_question float query_store dedent chat_error chat
    st question n_context_chunks model_name
  = inl (Answer.FromSearch chat_error (CollectionNotFound "notes")).
Proof.
  intros Hst. unfold Answer.answer_question, Search.search,
    Search.get_collection, get_collection_of, Search.COLLECTION_NAME.
  by rewrite Hst.
Qed.

End Facts.

Lemma search_after_rebuild_witness :
  data_dir_exists Scenarios.three_files = true
  ∧ Ingest.find_documents (walk Scenarios.three_files)
    = Ok [("data/long.txt", replicate 1500 97%N);
          ("data/short.md", of_string "hello")]
  ∧ store Scenarios.three_files !! "notes" = None
  ∧ ∃ records,
      Search.get_collection (store (Ingest.main Scenarios.three_files).2)
      = Ok records.
Proof.
  assert (Hdir : data_dir_exists Scenarios.three_files = true) by reflexivity.
  assert (Hfind : Ingest.find_documents (walk Scenarios.three_files)
                  = Ok [("data/long.txt", replicate 1500 97%N);
                        ("data/short.md", of_string "hello")])
    by (vm_compute; reflexivity).
  split; [exact Hdir|]. split; [exact Hfind|]. split; [reflexivity|].
  destruct (search_after_rebuild _ _ _ Hdir Hfind) as (records & _ & Hget).
  exists records. exact Hget.
Defined.

Lemma answer_before_ingest_witness :
  (∅ : gmap string (list record)) !! "notes" = None
  ∧ Answer.answer_question Z Scenarios.two_matches (λ s, s) unit
      (λ _ prompt, inr prompt) ∅ (of_string "what?") 5 "llama3.2"
    = inl (Answer.FromSearch unit (CollectionNotFound "notes")).
Proof.
  assert (Hst : (∅ : gmap string (list record)) !! "notes" = None)
    by reflexivity.
  split; [exact Hst|].
  exact (answer_before_ingest Z Scenarios.two_matches (λ s, s) unit
           (λ _ prompt, inr prompt) ∅ (of_string "what?") 5%Z "llama3.2" Hst).
Defined.

End PipelineMore.
